(** * Sub-agent delegation (core/src/delegation.ts)

    A shallow embedding of the delegation core of tinyclaw: the tool-call
    extractor, the tool executor, the bounded execution loop, the timeout
    race around it, and the [delegate_task] entry point with its capability
    filter.  Asynchronous code is written in a state-and-exception monad over
    an abstract world of collaborators (chat backends, tools, the clock, the
    UUID source); every awaited call is logged together with its result and
    the instant at which it settles, so that the race between the loop and
    the deadline timer can be decided from the log. *)

From stdpp Require Import gmap strings list fin_maps pretty.
From Stdlib Require Import ZArith Ascii String.

#[local] Set Warnings "-register-all,-clear-no-such-hyp".
#[local] Open Scope Z_scope.

(** ** JavaScript values

    Tool arguments and parsed payloads are [Record<string, unknown>] in the
    source.  The values that reach this code come out of JSON (model output,
    native tool calls), so [JsValue] has the JSON shapes plus [undefined].
    Numbers are never computed with here: a number is carried by the text
    that [String(n)] prints for it ([0] and [-0] both print [0]). *)

Inductive JsValue : Type :=
  | VUndefined
  | VNull
  | VBool (b : bool)
  | VNum (repr : string)
  | VStr (s : string)
  | VArr (items : list JsValue)
  | VObj (props : gmap string JsValue).

(** An object of the source, [Record<string, unknown>]. *)
Abbreviation JsRecord := (gmap string JsValue).

(** What a [throw] (or the rejection of a promise) carries: an [Error]
    object with its name and message, or any other value; JavaScript lets
    code throw [null], [undefined], a string, an object. *)
Inductive JsThrown : Type :=
  | ErrorObject (name message : string)
  | ThrownValue (v : JsValue).

(** The [TypeError]s that the platform itself throws. *)
Definition TypeError (message : string) : JsThrown := ErrorObject "TypeError" message.

(** The result of evaluating code that may throw (or of awaiting a promise
    that may reject). *)
Inductive Outcome (A : Type) : Type :=
  | Returned (a : A)
  | Thrown (e : JsThrown).
Arguments Returned {A} a.
Arguments Thrown {A} e.

(** The double-quote character, for the texts that contain it. *)
Definition dquote : string := String "034"%char EmptyString.

(** [String(v)], also what a template literal does to an interpolated
    value.  Arrays join their elements with commas, printing nothing for
    [null] and [undefined] elements.  An object is printed by its [toString]
    method: the inherited one gives [[object Object]], but an own property
    [toString] hides it, and since no value here is a function the
    conversion then finds no method that returns a primitive and throws a
    [TypeError] (the inherited [valueOf] returns the object itself). *)
Fixpoint js_String (v : JsValue) : Outcome string :=
  match v with
  | VUndefined => Returned "undefined"
  | VNull => Returned "null"
  | VBool true => Returned "true"
  | VBool false => Returned "false"
  | VNum repr => Returned repr
  | VStr s => Returned s
  | VArr items =>
      (fix join (l : list JsValue) : Outcome string :=
         match l with
         | [] => Returned ""
         | x :: rest =>
             match match x with
                   | VUndefined | VNull => Returned ""
                   | _ => js_String x
                   end with
             | Thrown e => Thrown e
             | Returned sx =>
                 match rest with
                 | [] => Returned sx
                 | _ :: _ =>
                     match join rest with
                     | Thrown e => Thrown e
                     | Returned sr => Returned (sx +:+ "," +:+ sr)
                     end
                 end
             end
         end) items
  | VObj props =>
      if bool_decide (is_Some (props !! "toString"))
      then Thrown (TypeError "Cannot convert object to primitive value")
      else Returned "[object Object]"
  end.

(** Truthiness, as tested by [if (v)], [!v] and [v || d]. *)
Definition js_truthy (v : JsValue) : bool :=
  match v with
  | VUndefined | VNull => false
  | VBool b => b
  | VNum repr => negb (String.eqb repr "0" || String.eqb repr "NaN")
  | VStr s => negb (String.eqb s "")
  | VArr _ | VObj _ => true
  end.

(** [a || b] *)
Definition js_or (a b : JsValue) : JsValue := if js_truthy a then a else b.

(** [typeof v === 'object'] *)
Definition js_typeof_object (v : JsValue) : bool :=
  match v with
  | VNull | VArr _ | VObj _ => true
  | _ => false
  end.

(** [key in v] for a value that passed the object test.  The keys asked
    about in this file ([action], [tool], [name], [filename], [file_path],
    [path]) are not properties of arrays or of the object prototype, so only
    the own properties of an object count. *)
Definition js_in (key : string) (v : JsValue) : bool :=
  match v with
  | VObj props => bool_decide (is_Some (props !! key))
  | _ => false
  end.

(** [v[key]], for the keys asked about in this file (none of them is a
    property of strings, arrays or the object prototype). *)
Definition js_get (key : string) (v : JsValue) : JsValue :=
  match v with
  | VObj props => default VUndefined (props !! key)
  | _ => VUndefined
  end.

(** [`${(err as Error).message}`] in a [catch]: the cast checks nothing, so
    reading [message] off a thrown [null] or [undefined] throws a
    [TypeError]; any other value that is not an [Error] yields its own
    [message] property, [undefined] when it has none, printed as text. *)
Definition err_message (err : JsThrown) : Outcome string :=
  match err with
  | ErrorObject _ message => Returned message
  | ThrownValue VUndefined =>
      Thrown (TypeError "Cannot read properties of undefined (reading 'message')")
  | ThrownValue VNull =>
      Thrown (TypeError "Cannot read properties of null (reading 'message')")
  | ThrownValue v => js_String (js_get "message" v)
  end.

(** ** Strings

    A [string] holds the UTF-8 encoding of a text, one byte per [ascii], as
    the literals of this file do (the dash of the system prompt is three
    bytes).  The characters that the code searches for and compares with
    (the braces, the letters of the keys) are single bytes below 128, which
    occur in the encoding of no other character; so the slice between two of
    them is the same text whether positions are counted in bytes, as here, or
    in UTF-16 code units, as JavaScript does.  A text with an unpaired
    surrogate has no encoding and is outside the model. *)

(** [text.indexOf(c)] for a character [c] below 128, with [None] for [-1]. *)
Fixpoint indexOf (c : ascii) (s : string) : option nat :=
  match s with
  | EmptyString => None
  | String a s' => if Ascii.eqb a c then Some 0%nat else S <$> indexOf c s'
  end.

(** [text.lastIndexOf(c)], with [None] for [-1]. *)
Fixpoint lastIndexOf (c : ascii) (s : string) : option nat :=
  match s with
  | EmptyString => None
  | String a s' =>
      match lastIndexOf c s' with
      | Some k => Some (S k)
      | None => if Ascii.eqb a c then Some 0%nat else None
      end
  end.

(** [text.slice(from, to)] for [0 <= from <= to]. *)
Definition slice (from to : nat) (s : string) : string :=
  substring from (to - from) s.

(** White space and line terminators, as [trim] knows them, by the bytes of
    their encoding: U+0009 to U+000D and U+0020 in one byte; U+00A0 in two;
    U+1680, U+2000 to U+200A, U+2028, U+2029, U+202F, U+205F, U+3000 and
    U+FEFF in three. *)
Definition is_whitespace1 (a : ascii) : bool :=
  let a := nat_of_ascii a in
  ((9 <=? a)%nat && (a <=? 13)%nat) || (a =? 32)%nat.

Definition is_whitespace2 (a b : ascii) : bool :=
  (nat_of_ascii a =? 194)%nat && (nat_of_ascii b =? 160)%nat.

Definition is_whitespace3 (a b c : ascii) : bool :=
  let a := nat_of_ascii a in
  let b := nat_of_ascii b in
  let c := nat_of_ascii c in
  ((a =? 225)%nat && (b =? 154)%nat && (c =? 128)%nat)
  || ((a =? 226)%nat && (b =? 128)%nat
      && (((128 <=? c)%nat && (c <=? 138)%nat)
          || (c =? 168)%nat || (c =? 169)%nat || (c =? 175)%nat))
  || ((a =? 226)%nat && (b =? 129)%nat && (c =? 159)%nat)
  || ((a =? 227)%nat && (b =? 128)%nat && (c =? 128)%nat)
  || ((a =? 239)%nat && (b =? 187)%nat && (c =? 191)%nat).

Fixpoint trimStart (s : string) : string :=
  match s with
  | EmptyString => EmptyString
  | String a rest =>
      if is_whitespace1 a then trimStart rest else
      match rest with
      | EmptyString => s
      | String b rest' =>
          if is_whitespace2 a b then trimStart rest' else
          match rest' with
          | EmptyString => s
          | String c rest'' => if is_whitespace3 a b c then trimStart rest'' else s
          end
      end
  end.

(** A text is blank when it is empty or holds white space only. *)
Fixpoint blank (s : string) : bool :=
  match s with
  | EmptyString => true
  | String a rest =>
      if is_whitespace1 a then blank rest else
      match rest with
      | EmptyString => false
      | String b rest' =>
          if is_whitespace2 a b then blank rest' else
          match rest' with
          | EmptyString => false
          | String c rest'' => if is_whitespace3 a b c then blank rest'' else false
          end
      end
  end.

(** What is left of [s] without the white space at its end: its bytes up to
    the point from which only white space follows.  (In a well-formed text a
    suffix that begins inside a character begins with a continuation byte
    and is not blank.) *)
Fixpoint trimEnd (s : string) : string :=
  match s with
  | EmptyString => EmptyString
  | String a rest => if blank s then EmptyString else String a (trimEnd rest)
  end.

(** [s.trim()] *)
Definition trim (s : string) : string := trimEnd (trimStart s).

(** The number of bytes of the character that begins with the byte [a]. *)
Definition utf8_width (a : ascii) : nat :=
  let a := nat_of_ascii a in
  if (a <? 192)%nat then 1%nat
  else if (a <? 224)%nat then 2%nat
  else if (a <? 240)%nat then 3%nat
  else 4%nat.

(** [[...s]]: the characters of a text, each a text of its own. *)
Fixpoint characters (fuel : nat) (s : string) : list string :=
  match fuel, s with
  | S fuel, String a _ =>
      let n := utf8_width a in
      substring 0 n s :: characters fuel (substring n (String.length s - n) s)
  | _, _ => []
  end.

(** ** Constants *)

Definition SUB_AGENT_MAX_ITERATIONS : nat := 10.
Definition SUB_AGENT_TIMEOUT_MS : Z := 60000.
Definition TOOL_ACTION_KEYS : list string := ["action"; "tool"; "name"].

(** Tools safe for sub-agents by default (read-only). *)
Definition DEFAULT_SAFE_TOOLS : list string :=
  ["heartware_read"; "heartware_search"; "heartware_list"; "memory_recall"].

(** ** Types *)

Record ToolCall : Type := mkToolCall {
  tc_id : string;
  tc_name : string;
  tc_arguments : JsRecord
}.

Inductive Role : Type := RoleSystem | RoleUser | RoleAssistant | RoleTool.

Record Message : Type := mkMessage {
  msg_role : Role;
  msg_content : string;
  msg_toolCalls : option (list ToolCall);
  msg_toolCallId : option string
}.

(** The backend's answer: [type] is ['text'] or ['tool_calls']; [content]
    and [toolCalls] are optional. *)
Inductive ResponseType : Type := TypeText | TypeToolCalls.

Record LLMResponse : Type := mkResponse {
  resp_type : ResponseType;
  resp_content : option string;
  resp_toolCalls : option (list ToolCall)
}.

Record SubAgentResult : Type := mkResult {
  success : bool;
  response : string;
  iterations : nat;
  providerId : string
}.

(** ** Tool call parsing helpers *)

Definition normalizeToolArguments (args : JsRecord) : JsRecord :=
  let normalized := args in
  let normalized :=
    if negb (bool_decide (is_Some (normalized !! "filename")))
       && bool_decide (is_Some (normalized !! "file_path"))
    then <["filename" := default VUndefined (normalized !! "file_path")]> normalized
    else normalized in
  let normalized :=
    if negb (bool_decide (is_Some (normalized !! "filename")))
       && bool_decide (is_Some (normalized !! "path"))
    then <["filename" := default VUndefined (normalized !! "path")]> normalized
    else normalized in
  normalized.

(** ** The log of awaited calls

    Each [await] of the source hands control to a collaborator.  The log
    keeps, for every awaited call, what was called, how it settled (the
    answer of the backend or the text of the tool, or what it rejected
    with), the instant at which it settled, and the values the loop
    variables [i] and [iterations] had while it was pending. *)

Inductive Call : Type :=
  | CallGetForTier (tier : JsValue)
  | CallRouteWithHealth (task : string)
  | CallChat (provider : string) (toolNames : list string)
  | CallTool (name : string).

Inductive Answer : Type :=
  | ChatAnswer (response : LLMResponse)
  | ToolAnswer (text : string).

Record Await : Type := mkAwait {
  aw_call : Call;
  aw_result : Outcome Answer;
  aw_settled : Z;
  aw_i : nat;
  aw_iterations : nat
}.

(** ** Timers

    [setTimeout(f, ms)] keeps a delay between 1 and 2^31 - 1 ms and replaces
    every other delay by 1 ms. *)
Definition timer_delay (ms : Z) : Z :=
  if (1 <=? ms) && (ms <=? 2147483647) then ms else 1.

(** ** The monad of asynchronous code

    A computation runs on a state, returns or throws, and leaves a state. *)

Definition Async (S A : Type) : Type := S -> Outcome A * S.

Definition ret {S A} (a : A) : Async S A := fun st => (Returned a, st).

Definition bind {S A B} (m : Async S A) (k : A -> Async S B) : Async S B :=
  fun st =>
    match m st with
    | (Returned a, st') => k a st'
    | (Thrown e, st') => (Thrown e, st')
    end.

(** [try { m } catch (err) { handler err }] *)
Definition try_catch {S A} (m : Async S A) (handler : JsThrown -> Async S A) : Async S A :=
  fun st =>
    match m st with
    | (Returned a, st') => (Returned a, st')
    | (Thrown e, st') => handler e st'
    end.

(** An expression that may throw, evaluated where it stands. *)
Definition eval {S A} (o : Outcome A) : Async S A := fun st => (o, st).

Notation "'let*' x ':=' m 'in' k" := (bind m (fun x => k))
  (at level 10, x pattern, m at level 100, k at level 200,
   format "'let*'  x  ':='  m  'in' '//' k").

(** [for (const x of l) { await body(x) }] *)
Fixpoint for_each {S A} (l : list A) (body : A -> Async S unit) : Async S unit :=
  match l with
  | [] => ret tt
  | x :: rest => let* _ := body x in for_each rest body
  end.

(** ** The platform and the collaborators

    The state of the collaborators (backends, tools), the wall clock (in ms)
    read off it, and the platform's [crypto.randomUUID] and [JSON.parse]
    ([None] when it throws a [SyntaxError]).  When an awaited call settles
    in the very millisecond in which a timer is due, it is the platform's
    scheduler that decides which of the two is served first:
    [timer_wins_tie] stands for its decision.  The logger has no effect on
    any result and is left out. *)

Class Platform : Type := {
  World : Type;
  clock : World -> Z;
  randomUUID : World -> string * World;
  JSON_parse : string -> option JsValue;
  timer_wins_tie : Await -> bool
}.

Section Source.

Context {platform : Platform}.

(** A tool: its [description] and [parameters] schema play no part here. *)
Record Tool : Type := mkTool {
  tool_name : string;
  tool_execute : JsRecord -> World -> Outcome string * World
}.

Record Provider : Type := mkProvider {
  provider_id : string;
  provider_chat : list Message -> list Tool -> World -> Outcome LLMResponse * World
}.

Record SubAgentConfig : Type := mkSubAgentConfig {
  cfg_task : string;
  cfg_role : string;
  cfg_provider : Provider;
  cfg_tools : list Tool;
  cfg_timeout : option Z
}.

(** [getForTier] stands for [orchestrator.getRegistry().getForTier(tier)],
    [routeWithHealth] for the provider of the route it resolves. *)
Record ProviderOrchestrator : Type := mkOrchestrator {
  getForTier : JsValue -> World -> Outcome Provider * World;
  routeWithHealth : string -> World -> Outcome Provider * World
}.

Record DelegationToolConfig : Type := mkDelegationToolConfig {
  orchestrator : ProviderOrchestrator;
  allTools : list Tool;
  defaultSubAgentTools : option (list string)
}.

(** *** Tool-call extraction *)

(** [null] is [Returned None]; the one step that can throw is [String] of
    the alias value, which stands after the [try] around the parse. *)
Definition extractToolCallFromText (text : string) (w : World)
  : Outcome (option ToolCall) * World :=
  if String.eqb text "" then (Returned None, w) else
  match indexOf "{" text, lastIndexOf "}" text with
  | Some start, Some end_ =>
      if (end_ <=? start)%nat then (Returned None, w) else
      let raw := trim (slice start (end_ + 1) text) in
      match JSON_parse raw with
      | None => (Returned None, w)
      | Some parsed =>
          if negb (js_truthy parsed) || negb (js_typeof_object parsed)
          then (Returned None, w) else
          let actionKey := List.find (fun key => js_in key parsed) TOOL_ACTION_KEYS in
          match match actionKey with
                | Some key => js_String (js_get key parsed)
                | None => Returned ""
                end with
          | Thrown e => (Thrown e, w)
          | Returned toolName =>
          if String.eqb toolName "" then (Returned None, w) else
          (* only an object has an alias key, so only an object gets here *)
          let props := match parsed with VObj props => props | _ => ∅ end in
          let rest := delete "name" (delete "tool" (delete "action" props)) in
          let '(id, w') := randomUUID w in
          (Returned (Some {| tc_id := id;
                             tc_name := toolName;
                             tc_arguments := normalizeToolArguments rest |}), w')
          end
      end
  | _, _ => (Returned None, w)
  end.

(** *** The state of one run and the monad of its asynchronous code

    [rs_messages] and [rs_iterations] are the [messages] and [iterations]
    variables that the closure [run] shares with [runSubAgent]; [rs_i] is the
    loop variable. *)

Record RunState : Type := mkRunState {
  rs_world : World;
  rs_messages : list Message;
  rs_i : nat;
  rs_iterations : nat;
  rs_awaits : list Await
}.

(** How an awaited call settled, for the log. *)
Definition settled_as {A} (answer : A -> Answer) (o : Outcome A) : Outcome Answer :=
  match o with
  | Returned a => Returned (answer a)
  | Thrown e => Thrown e
  end.

(** [await] of a call to a collaborator: the world moves on and the call is
    logged with its result and the instant at which it settled. *)
Definition await {A} (call : Call) (answer : A -> Answer)
    (f : World -> Outcome A * World) : Async RunState A :=
  fun st =>
    let '(o, w') := f (rs_world st) in
    (o, {| rs_world := w';
           rs_messages := rs_messages st;
           rs_i := rs_i st;
           rs_iterations := rs_iterations st;
           rs_awaits := rs_awaits st ++
             [ {| aw_call := call; aw_result := settled_as answer o;
                  aw_settled := clock w';
                  aw_i := rs_i st; aw_iterations := rs_iterations st |} ] |}).

(** A synchronous use of the platform (here: the extraction, which draws a
    UUID and may throw). *)
Definition sync {A} (f : World -> Outcome A * World) : Async RunState A :=
  fun st =>
    let '(o, w') := f (rs_world st) in
    (o, {| rs_world := w';
           rs_messages := rs_messages st;
           rs_i := rs_i st;
           rs_iterations := rs_iterations st;
           rs_awaits := rs_awaits st |}).

(** [messages.push(m)] *)
Definition push (m : Message) : Async RunState unit :=
  fun st =>
    (Returned tt, {| rs_world := rs_world st;
                     rs_messages := rs_messages st ++ [m];
                     rs_i := rs_i st;
                     rs_iterations := rs_iterations st;
                     rs_awaits := rs_awaits st |}).

(** The head of a pass of the [for]: [i] holds the pass, and
    [iterations = i + 1]. *)
Definition begin_pass (i : nat) : Async RunState unit :=
  fun st =>
    (Returned tt, {| rs_world := rs_world st;
                     rs_messages := rs_messages st;
                     rs_i := i;
                     rs_iterations := i + 1;
                     rs_awaits := rs_awaits st |}).

Definition get_messages : Async RunState (list Message) := fun st => (Returned (rs_messages st), st).
Definition get_iterations : Async RunState nat := fun st => (Returned (rs_iterations st), st).

(** *** Tool execution helper *)

Definition executeToolCall (toolCall : ToolCall) (tools : list Tool)
  : Async RunState string :=
  match List.find (fun t => String.eqb (tool_name t) (tc_name toolCall)) tools with
  | None =>
      ret ("Error: Tool " +:+ dquote +:+ tc_name toolCall +:+ dquote +:+ " not found")
  | Some tool =>
      try_catch
        (await (CallTool (tool_name tool)) ToolAnswer
               (tool_execute tool (tc_arguments toolCall)))
        (fun err =>
           let* message := eval (err_message err) in
           ret ("Error: " +:+ message))
  end.

(** *** Sub-agent runner *)

Definition systemPrompt (role : string) : string :=
  "You are a focused sub-agent with the role: " +:+ role +:+ "." +:+
  String "010"%char (String "010"%char EmptyString) +:+
  "Complete the following task and return a clear, concise result." +:+
  String "010"%char EmptyString +:+
  "Do not ask follow-up questions — use your best judgment and available tools." +:+
  String "010"%char EmptyString +:+
  "When you have finished, respond with your final answer as plain text.".

(** The [for] of [run], entered at pass [i] with [remaining] passes to go
    ([i + remaining = SUB_AGENT_MAX_ITERATIONS]); with none to go, control
    reaches the [return] that follows the loop. *)
Fixpoint loop (provider : Provider) (tools : list Tool) (remaining i : nat)
  : Async RunState SubAgentResult :=
  match remaining with
  | O =>
      let* iterations := get_iterations in
      ret {| success := false;
             response :=
               "Sub-agent reached maximum iterations without completing the task.";
             iterations := iterations;
             providerId := provider_id provider |}
  | S remaining' =>
      let* _ := begin_pass i in
      let* messages := get_messages in
      let* response :=
        await (CallChat (provider_id provider) (tool_name <$> tools)) ChatAnswer
              (provider_chat provider messages tools) in
      match resp_type response with
      | TypeText =>
          (* --- Text response --- *)
          let content := default "" (resp_content response) in
          let* toolCall := sync (extractToolCallFromText content) in
          match toolCall with
          | Some toolCall =>
              (* JSON-in-text tool call: execute and continue *)
              let* result := executeToolCall toolCall tools in
              let* _ := push {| msg_role := RoleAssistant; msg_content := content;
                                msg_toolCalls := None; msg_toolCallId := None |} in
              let* _ := push {| msg_role := RoleTool; msg_content := result;
                                msg_toolCalls := None;
                                msg_toolCallId := Some (tc_id toolCall) |} in
              loop provider tools remaining' (S i)
          | None =>
              (* Pure text: this is the final response *)
              let* iterations := get_iterations in
              ret {| success := true;
                     response := content;
                     iterations := iterations;
                     providerId := provider_id provider |}
          end
      | TypeToolCalls =>
          (* --- Native tool calls --- *)
          match resp_toolCalls response with
          | Some ((_ :: _) as toolCalls) =>
              let assistantContent := default "" (resp_content response) in
              let* _ :=
                for_each toolCalls (fun tc =>
                  let* result := executeToolCall tc tools in
                  let* _ := push {| msg_role := RoleAssistant;
                                    msg_content := assistantContent;
                                    msg_toolCalls := Some [tc];
                                    msg_toolCallId := None |} in
                  push {| msg_role := RoleTool; msg_content := result;
                          msg_toolCalls := None;
                          msg_toolCallId := Some (tc_id tc) |}) in
              loop provider tools remaining' (S i)
          | _ => loop provider tools remaining' (S i)
          end
      end
  end.

Definition run (provider : Provider) (tools : list Tool)
  : Async RunState SubAgentResult :=
  loop provider tools SUB_AGENT_MAX_ITERATIONS 0.

(** The timer is served before the awaited call [a]: the call settles
    after the deadline, or in the deadline's own millisecond with the
    scheduler serving the timer first. *)
Definition timer_first (deadline : Z) (a : Await) : bool :=
  (deadline <? aw_settled a) || ((deadline =? aw_settled a) && timer_wins_tie a).

(** The first awaited call of the log that is still pending when the timer
    fires. *)
Definition first_late (deadline : Z) (awaits : list Await) : option Await :=
  List.find (timer_first deadline) awaits.

(** [Promise.race([run(), timer])], given how [run()] settles when left
    alone and the state it leaves.  The second component is the value of the
    shared variable [iterations] at the instant the race settles.  The timer
    can only fire while the loop is suspended in an [await]; the loop is not
    cancelled, so the state of the whole run is what the world ends up in. *)
Definition race (deadline : Z) (settled : Outcome SubAgentResult) (st : RunState)
  : Outcome SubAgentResult * nat :=
  match first_late deadline (rs_awaits st) with
  | Some a => (Thrown (ErrorObject "Error" "Sub-agent timed out"), aw_iterations a)
  | None => (settled, rs_iterations st)
  end.

Definition initial_state (config : SubAgentConfig) (w : World) : RunState :=
  {| rs_world := w;
     rs_messages :=
       [ {| msg_role := RoleSystem; msg_content := systemPrompt (cfg_role config);
            msg_toolCalls := None; msg_toolCallId := None |};
         {| msg_role := RoleUser; msg_content := cfg_task config;
            msg_toolCalls := None; msg_toolCallId := None |} ];
     rs_i := 0;
     rs_iterations := 0;
     rs_awaits := [] |}.

(** The timeout is a whole number of milliseconds, and the timer is set at
    the instant the run starts (what [run()] does before it first suspends
    takes no time on the clock).  The [catch] builds its outcome from the
    message of what was thrown, and throws itself when that cannot be
    read. *)
Definition runSubAgent (config : SubAgentConfig) (w : World)
  : Outcome SubAgentResult * RunState :=
  let provider := cfg_provider config in
  let tools := cfg_tools config in
  let timeout := default SUB_AGENT_TIMEOUT_MS (cfg_timeout config) in
  let '(settled, st) := run provider tools (initial_state config w) in
  match race (clock w + timer_delay timeout) settled st with
  | (Returned result, _) => (Returned result, st)
  | (Thrown err, iterations) =>
      match err_message err with
      | Thrown e => (Thrown e, st)
      | Returned message =>
          (Returned {| success := false;
                       response := "Sub-agent error: " +:+ message;
                       iterations := iterations;
                       providerId := provider_id provider |}, st)
      end
  end.

(** *** Delegation tool factory *)

(** [v?.trim()] on an argument read off [args]: a call of a method that
    only strings have. *)
Definition optional_trim (what : string) (v : JsValue) : Outcome JsValue :=
  match v with
  | VUndefined | VNull => Returned VUndefined
  | VStr s => Returned (VStr (trim s))
  | _ => Thrown (TypeError (what +:+ "?.trim is not a function"))
  end.

(** [[...v]]: arrays and strings are the iterable values; a string yields
    its characters. *)
Definition spread (what : string) (v : JsValue) : Outcome (list JsValue) :=
  match v with
  | VArr items => Returned items
  | VStr s => Returned (VStr <$> characters (String.length s) s)
  | _ => Thrown (TypeError (what +:+ " is not iterable"))
  end.

(** The text of an argument that has passed validation (only a string
    has). *)
Definition text_of (v : JsValue) : string :=
  match v with
  | VStr s => s
  | _ => ""
  end.

(** The string members of a list of values: the only members of the
    allowed set that [has(t.name)] or [delete('delegate_task')] can meet. *)
Fixpoint js_strings (l : list JsValue) : list string :=
  match l with
  | [] => []
  | VStr s :: rest => s :: js_strings rest
  | _ :: rest => js_strings rest
  end.

(** Step 1 of [execute]: the provider of the tier asked for or, with no
    tier, of the route resolved for the task; and the call made for it. *)
Definition resolveProvider (orchestrator : ProviderOrchestrator)
    (tierOverride : JsValue) (task : string) (w : World)
  : Outcome Provider * World * Call :=
  if js_truthy tierOverride
  then (getForTier orchestrator tierOverride w, CallGetForTier tierOverride)
  else (routeWithHealth orchestrator task w, CallRouteWithHealth task).

(** Step 2 of [execute]: the allowed names and the tools they select. *)
Definition allowedToolNames (safeToolNames : list string)
    (additionalToolNames : list JsValue) : gset string :=
  list_to_set (safeToolNames ++ js_strings additionalToolNames) ∖ {[ "delegate_task" ]}.

Definition subAgentTools (allTools : list Tool) (allowed : gset string) : list Tool :=
  filter (fun t => tool_name t ∈ allowed) allTools.

Definition newline : string := String "010"%char EmptyString.

(** Step 4 of [execute]. *)
Definition format_result (role : string) (result : SubAgentResult) : string :=
  if success result then
    "[Sub-agent (" +:+ role +:+ ") completed in " +:+ pretty (iterations result) +:+
    " iteration(s) via " +:+ providerId result +:+ "]" +:+ newline +:+ newline +:+
    response result
  else
    "[Sub-agent (" +:+ role +:+ ") failed after " +:+ pretty (iterations result) +:+
    " iteration(s)]" +:+ newline +:+ newline +:+
    "Error: " +:+ response result.

(** [execute] of the tool made by [createDelegationTool config].  Besides
    its outcome it gives the world it leaves and the calls made to its
    collaborators, in order (after a timeout these include the calls that
    the abandoned loop goes on to make). *)
Definition execute (config : DelegationToolConfig) (args : JsRecord) (w : World)
  : Outcome string * (World * list Call) :=
  let safeToolNames := default DEFAULT_SAFE_TOOLS (defaultSubAgentTools config) in
  let task := default VUndefined (args !! "task") in
  let role := default VUndefined (args !! "role") in
  let tierOverride := default VUndefined (args !! "tier") in
  let additionalToolNames := js_or (default VUndefined (args !! "tools")) (VArr []) in
  match optional_trim "task" task with
  | Thrown e => (Thrown e, (w, []))
  | Returned trimmed =>
  if negb (js_truthy trimmed)
  then (Returned "Error: task must be a non-empty string.", (w, [])) else
  match optional_trim "role" role with
  | Thrown e => (Thrown e, (w, []))
  | Returned trimmed =>
  if negb (js_truthy trimmed)
  then (Returned "Error: role must be a non-empty string.", (w, [])) else
  (* both are strings from here on *)
  let task := text_of task in
  let role := text_of role in
  (* 1. Resolve provider *)
  let '(resolved, w1, call) :=
    resolveProvider (orchestrator config) tierOverride task w in
  match resolved with
  | Thrown err =>
      match err_message err with
      | Thrown e => (Thrown e, (w1, [call]))
      | Returned message =>
          (Returned ("Error resolving provider: " +:+ message), (w1, [call]))
      end
  | Returned provider =>
  (* 2. Assemble tool set *)
  match spread "additionalToolNames" additionalToolNames with
  | Thrown e => (Thrown e, (w1, [call]))
  | Returned additional =>
  let allowed := allowedToolNames safeToolNames additional in
  let tools := subAgentTools (allTools config) allowed in
  (* 3. Run sub-agent *)
  let '(settled, st) :=
    runSubAgent {| cfg_task := task; cfg_role := role; cfg_provider := provider;
                   cfg_tools := tools; cfg_timeout := None |} w1 in
  let calls := call :: (aw_call <$> rs_awaits st) in
  match settled with
  | Thrown e => (Thrown e, (rs_world st, calls))
  | Returned result =>
  (* 4. Format result *)
  (Returned (format_result role result), (rs_world st, calls))
  end end end end end.

Definition createDelegationTool (config : DelegationToolConfig) : Tool :=
  {| tool_name := "delegate_task";
     tool_execute := fun args w =>
       let '(o, (w', _)) := execute config args w in (o, w') |}.

End Source.

(** * A platform to run the definitions on

    The closed examples at the end run the definitions on a small simulated
    world.  They need an instance of [JSON.parse]: [parse_json] reads the
    fragment of JSON whose numbers are integers of at most fifteen digits
    and whose strings have no [\u] escapes, and rejects every other text. *)

Module Json.

Definition is_json_space (c : ascii) : bool :=
  let n := nat_of_ascii c in
  (n =? 32)%nat || (n =? 9)%nat || (n =? 10)%nat || (n =? 13)%nat.

Fixpoint skip_space (s : string) : string :=
  match s with
  | String c rest => if is_json_space c then skip_space rest else s
  | EmptyString => EmptyString
  end.

Definition is_digit (c : ascii) : bool :=
  let n := nat_of_ascii c in (48 <=? n)%nat && (n <=? 57)%nat.

(** The characters of a string literal after its opening quote, up to the
    closing one. *)
Fixpoint string_body (s : string) : option (string * string) :=
  match s with
  | EmptyString => None
  | String c rest =>
      if Ascii.eqb c "034" then Some (EmptyString, rest)
      else if (nat_of_ascii c <? 32)%nat then None
      else if Ascii.eqb c "\" then
        match rest with
        | String e rest' =>
            let unescaped :=
              if Ascii.eqb e "034" then Some "034"%char
              else if Ascii.eqb e "\" then Some "\"%char
              else if Ascii.eqb e "/" then Some "/"%char
              else if Ascii.eqb e "b" then Some "008"%char
              else if Ascii.eqb e "f" then Some "012"%char
              else if Ascii.eqb e "n" then Some "010"%char
              else if Ascii.eqb e "r" then Some "013"%char
              else if Ascii.eqb e "t" then Some "009"%char
              else None in
            match unescaped, string_body rest' with
            | Some u, Some (body, after) => Some (String u body, after)
            | _, _ => None
            end
        | EmptyString => None
        end
      else
        match string_body rest with
        | Some (body, after) => Some (String c body, after)
        | None => None
        end
  end.

Fixpoint digits (s : string) : string * string :=
  match s with
  | String c rest =>
      if is_digit c then let '(ds, after) := digits rest in (String c ds, after)
      else (EmptyString, s)
  | EmptyString => (EmptyString, EmptyString)
  end.

(** An integer literal: no leading zero, at most fifteen digits, and no
    fraction or exponent after it. *)
Definition integer (s : string) : option (JsValue * string) :=
  let '(negative, s) :=
    match s with
    | String "-" rest => (true, rest)
    | _ => (false, s)
    end in
  let '(ds, after) := digits s in
  let continues :=
    match after with
    | String c _ => Ascii.eqb c "." || Ascii.eqb c "e" || Ascii.eqb c "E"
    | EmptyString => false
    end in
  match ds with
  | EmptyString => None
  | String d more =>
      if continues || (15 <? String.length ds)%nat
         || (Ascii.eqb d "0" && negb (String.eqb more ""))
      then None
      else if String.eqb ds "0" then Some (VNum "0", after)
      else Some (VNum (if negative then "-" +:+ ds else ds), after)
  end.

Fixpoint value (fuel : nat) (s : string) : option (JsValue * string) :=
  match fuel with
  | O => None
  | S fuel =>
      match skip_space s with
      | String "{" rest =>
          match skip_space rest with
          | String "}" after => Some (VObj ∅, after)
          | _ => members fuel rest ∅
          end
      | String "[" rest =>
          match skip_space rest with
          | String "]" after => Some (VArr [], after)
          | _ => elements fuel rest []
          end
      | String "034" rest =>
          match string_body rest with
          | Some (body, after) => Some (VStr body, after)
          | None => None
          end
      | String "t" (String "r" (String "u" (String "e" after))) => Some (VBool true, after)
      | String "f" (String "a" (String "l" (String "s" (String "e" after)))) =>
          Some (VBool false, after)
      | String "n" (String "u" (String "l" (String "l" after))) => Some (VNull, after)
      | s' => integer s'
      end
  end
with members (fuel : nat) (s : string) (acc : gmap string JsValue)
  : option (JsValue * string) :=
  match fuel with
  | O => None
  | S fuel =>
      match skip_space s with
      | String "034" rest =>
          match string_body rest with
          | Some (key, after) =>
              match skip_space after with
              | String ":" after =>
                  match value fuel after with
                  | Some (v, after) =>
                      let acc := <[key := v]> acc in
                      match skip_space after with
                      | String "," after => members fuel after acc
                      | String "}" after => Some (VObj acc, after)
                      | _ => None
                      end
                  | None => None
                  end
              | _ => None
              end
          | None => None
          end
      | _ => None
      end
  end
with elements (fuel : nat) (s : string) (acc : list JsValue)
  : option (JsValue * string) :=
  match fuel with
  | O => None
  | S fuel =>
      match value fuel s with
      | Some (v, after) =>
          match skip_space after with
          | String "," after => elements fuel after (acc ++ [v])
          | String "]" after => Some (VArr (acc ++ [v]), after)
          | _ => None
          end
      | None => None
      end
  end.

Definition parse_json (text : string) : option JsValue :=
  match value (2 * String.length text + 2) text with
  | Some (v, after) =>
      match skip_space after with
      | EmptyString => Some v
      | _ => None
      end
  | None => None
  end.

End Json.

(** A simulated world: a clock, and counters of the chat calls and of the
    UUIDs drawn so far.  Backends answer from a script indexed by the number
    of earlier chat calls; every call takes a fixed time. *)

Module Sim.

Record SimWorld : Type := mkSim {
  sim_now : Z;
  sim_chats : nat;
  sim_uuids : nat
}.

Definition platform : Platform := {|
  World := SimWorld;
  clock := sim_now;
  randomUUID := fun w =>
    ("uuid-" +:+ pretty (sim_uuids w),
     {| sim_now := sim_now w; sim_chats := sim_chats w; sim_uuids := S (sim_uuids w) |});
  JSON_parse := Json.parse_json;
  timer_wins_tie := fun _ => false
|}.

#[local] Existing Instance platform.

Definition start : World := {| sim_now := 0; sim_chats := 0; sim_uuids := 0 |}.

Definition elapse (ms : Z) (w : SimWorld) : SimWorld :=
  {| sim_now := sim_now w + ms; sim_chats := sim_chats w; sim_uuids := sim_uuids w |}.

Definition scripted (id : string) (latency : Z) (script : nat -> Outcome LLMResponse)
  : Provider :=
  {| provider_id := id;
     provider_chat := fun _ _ w =>
       (script (sim_chats w),
        {| sim_now := sim_now w + latency;
           sim_chats := S (sim_chats w);
           sim_uuids := sim_uuids w |}) |}.

Definition text_response (content : string) : LLMResponse :=
  {| resp_type := TypeText; resp_content := Some content; resp_toolCalls := None |}.

Definition tool_calls_response (calls : list ToolCall) : LLMResponse :=
  {| resp_type := TypeToolCalls; resp_content := None; resp_toolCalls := Some calls |}.

(** A tool that answers [reply] after [latency] ms. *)
Definition replying (name reply : string) (latency : Z) : Tool :=
  {| tool_name := name;
     tool_execute := fun _ w => (Returned reply, elapse latency w) |}.

(** A tool that throws. *)
Definition failing (name message : string) : Tool :=
  {| tool_name := name;
     tool_execute := fun _ w => (Thrown (ErrorObject "Error" message), elapse 1 w) |}.

(** A tool whose promise rejects with [undefined]. *)
Definition rejecting (name : string) : Tool :=
  {| tool_name := name;
     tool_execute := fun _ w => (Thrown (ThrownValue VUndefined), elapse 1 w) |}.

Definition quoted (s : string) : string := dquote +:+ s +:+ dquote.

(** The text [{"k1":"v1","k2":"v2",...}]. *)
Fixpoint json_fields (fields : list (string * string)) : string :=
  match fields with
  | [] => ""
  | [(k, v)] => quoted k +:+ ":" +:+ quoted v
  | (k, v) :: rest => quoted k +:+ ":" +:+ quoted v +:+ "," +:+ json_fields rest
  end.

Definition json_object (fields : list (string * string)) : string :=
  "{" +:+ json_fields fields +:+ "}".

(** A backend that answers at once with the final text [Done.]. *)
Definition prompt_backend : Provider :=
  scripted "sim" 5 (fun _ => Returned (text_response "Done.")).



(** A backend whose promise rejects with [undefined]. *)
Definition refusing_backend : Provider :=
  scripted "refusing" 5 (fun _ => Thrown (ThrownValue VUndefined)).

(** A backend that asks for the tool [memory_recall] on every turn. *)
Definition calling_backend : Provider :=
  scripted "caller" 5 (fun n =>
    Returned (tool_calls_response
      [ {| tc_id := "call-" +:+ pretty n; tc_name := "memory_recall";
           tc_arguments := ∅ |} ])).

(** The same, taking 7 s for every answer. *)
Definition slow_calling_backend : Provider :=
  scripted "slow-caller" 7000 (fun n =>
    Returned (tool_calls_response
      [ {| tc_id := "call-" +:+ pretty n; tc_name := "memory_recall";
           tc_arguments := ∅ |} ])).

(** A backend that asks for native tool calls on its first ten turns and
    gives a final answer from then on. *)
Definition calling_ten_times : Provider :=
  scripted "ten" 5 (fun n =>
    if (n <? 10)%nat
    then Returned (tool_calls_response
           [ {| tc_id := "call-" +:+ pretty n; tc_name := "memory_recall";
                tc_arguments := ∅ |} ])
    else Returned (text_response "Done.")).

(** The catalog of the primary agent: the read-only tools, a writing tool,
    and the delegation tool itself. *)
Definition orchestrator_of (provider : Provider) : ProviderOrchestrator :=
  {| getForTier := fun tier w =>
       match tier with
       | VStr "simple" | VStr "moderate" | VStr "complex" | VStr "reasoning" =>
           (Returned provider, w)
       | _ => (Thrown (ErrorObject "Error" "No provider for tier"), w)
       end;
     routeWithHealth := fun _ w => (Returned provider, elapse 1 w) |}.

Definition catalog : list Tool :=
  [ replying "heartware_read" "contents" 2;
    replying "memory_recall" "nothing recalled" 2;
    replying "heartware_write" "written" 2;
    replying "delegate_task" "nested" 2 ].

Definition delegation (provider : Provider) : DelegationToolConfig :=
  {| orchestrator := orchestrator_of provider;
     allTools := catalog;
     defaultSubAgentTools := None |}.

Definition config_of (provider : Provider) (tools : list Tool) (timeout : option Z)
  : SubAgentConfig :=
  {| cfg_task := "Summarize doc"; cfg_role := "Summarizer";
     cfg_provider := provider; cfg_tools := tools; cfg_timeout := timeout |}.


(** A backend that asks for two tools in one turn, the second of them
    unknown to the catalog. *)
Definition asking_twice : Provider :=
  scripted "twice" 5 (fun _ =>
    Returned (tool_calls_response
      [ {| tc_id := "call-a"; tc_name := "memory_recall"; tc_arguments := ∅ |};
        {| tc_id := "call-b"; tc_name := "web_search"; tc_arguments := ∅ |} ])).

(** A backend that answers with an empty list of native tool calls. *)
Definition idle_backend : Provider :=
  scripted "idle" 5 (fun _ => Returned (tool_calls_response [])).

(** A backend whose text answers carry no content. *)
Definition silent_backend : Provider :=
  scripted "silent" 5 (fun _ =>
    Returned {| resp_type := TypeText; resp_content := None; resp_toolCalls := None |}).

(** A backend that spells its tool call in the text of the answer. *)
Definition spelling_backend : Provider :=
  scripted "speller" 5 (fun _ =>
    Returned (text_response
      ("Let me check. " +:+ json_object [("action", "memory_recall"); ("query", "birthdays")]))).

End Sim.

(** * Notions used in the statements *)

(** ** Positions in a text *)

(** [c] occurs in [s] at [n] and nowhere before (resp. after). *)
Definition first_at (c : ascii) (s : string) (n : nat) : Prop :=
  String.get n s = Some c ∧ ∀ m, (m < n)%nat → String.get m s ≠ Some c.

Definition last_at (c : ascii) (s : string) (n : nat) : Prop :=
  String.get n s = Some c ∧ ∀ m, (n < m)%nat → String.get m s ≠ Some c.

Definition absent (c : ascii) (s : string) : Prop :=
  ∀ n, String.get n s ≠ Some c.

(** ** Guarded runs *)

(** The deadline of a guarded run: the instant at which its timer is due. *)
Abbreviation deadline_of config w :=
  (clock w + timer_delay (default SUB_AGENT_TIMEOUT_MS (cfg_timeout config))).

(** The loop of a guarded run, left alone. *)
Abbreviation unguarded config w :=
  (run (cfg_provider config) (cfg_tools config) (initial_state config w)).

(** The awaited call that is pending when the timer fires, if it fires. *)
Abbreviation pending_at_deadline config w :=
  (first_late (deadline_of config w) (rs_awaits (unguarded config w).2)).

(** The passes of the loop that were completed when the timer fired: the
    loop variable [i] counts them. *)
Abbreviation turns_completed_at_timeout config w :=
  (aw_i <$> pending_at_deadline config w).

Section Notions.

Context {platform : Platform}.

(** ** Extraction, the log of a run, the entry point *)

(** The parsed object has none of the alias keys. *)
Definition no_alias_key (props : JsRecord) : Prop :=
  props !! "action" = None ∧ props !! "tool" = None ∧ props !! "name" = None.

(** Why a text holds no tool call: it lacks a brace, the last [}] does not
    come after the first [{], the slice between them does not parse, parses
    to something that is not an object, or parses to an object without an
    alias key. *)
Inductive not_found_cause (text : string) : Prop :=
  | NoOpeningBrace :
      absent "{" text → not_found_cause text
  | NoClosingBrace :
      absent "}" text → not_found_cause text
  | ClosingNotAfterOpening s e :
      first_at "{" text s → last_at "}" text e → (e ≤ s)%nat →
      not_found_cause text
  | ParseFailure s e :
      first_at "{" text s → last_at "}" text e →
      JSON_parse (slice s (e + 1) text) = None →
      not_found_cause text
  | NotAnObject s e v :
      first_at "{" text s → last_at "}" text e →
      JSON_parse (slice s (e + 1) text) = Some v →
      (∀ props, v ≠ VObj props) →
      not_found_cause text
  | NoAliasKey s e props :
      first_at "{" text s → last_at "}" text e →
      JSON_parse (slice s (e + 1) text) = Some (VObj props) →
      no_alias_key props →
      not_found_cause text.

(** The key and value that name the tool: the first of [action], [tool],
    [name] that the object has. *)
Inductive resolves_alias (props : JsRecord) : string → JsValue → Prop :=
  | ByAction v :
      props !! "action" = Some v → resolves_alias props "action" v
  | ByTool v :
      props !! "action" = None → props !! "tool" = Some v →
      resolves_alias props "tool" v
  | ByName v :
      props !! "action" = None → props !! "tool" = None →
      props !! "name" = Some v →
      resolves_alias props "name" v.

(** [st'] has the log of [st] followed by awaited calls that satisfy [P]. *)
Definition logged (P : Await → Prop) (st st' : RunState) : Prop :=
  ∃ new, rs_awaits st' = rs_awaits st ++ new ∧ Forall P new.

(** [st'] is in the same pass of the loop as [st]. *)
Definition same_pass (st st' : RunState) : Prop :=
  rs_i st' = rs_i st ∧ rs_iterations st' = rs_iterations st.

(** The calls a run may make: chats with its backend, handing it the
    granted tools, and executions of granted tools. *)
Definition expected_call (provider : Provider) (tools : list Tool) (c : Call) : Prop :=
  match c with
  | CallChat id names => id = provider_id provider ∧ names = tool_name <$> tools
  | CallTool name => name ∈ tool_name <$> tools
  | _ => False
  end.

(** A tool execution logged while the loop variables were those of [st]. *)
Definition tool_logged (tools : list Tool) (st : RunState) (a : Await) : Prop :=
  aw_i a = rs_i st ∧ aw_iterations a = rs_iterations st
  ∧ ∃ name, aw_call a = CallTool name ∧ name ∈ tool_name <$> tools.

(** What the loop logs from pass [lo] up to (not including) pass [hi]: calls
    the run may make, each tagged with its pass [i] and
    [iterations = i + 1]. *)
Definition loop_logged (provider : Provider) (tools : list Tool) (lo hi : nat)
    (a : Await) : Prop :=
  aw_iterations a = S (aw_i a) ∧ (lo ≤ aw_i a < hi)%nat
  ∧ expected_call provider tools (aw_call a).


(** An awaited call of the log that, if it is a chat, was answered with
    native tool calls. *)
Definition answered_with_tool_calls (a : Await) : Prop :=
  match aw_call a with
  | CallChat _ _ =>
      ∃ resp, aw_result a = Returned (ChatAnswer resp) ∧ resp_type resp = TypeToolCalls
  | _ => True
  end.

(** An awaited call of the log that, if it is a tool execution, returned, or
    rejected with something whose message can be read: the executor turned
    it into a text. *)
Definition tool_handled (a : Await) : Prop :=
  match aw_call a, aw_result a with
  | CallTool _, Thrown err => ∃ message, err_message err = Returned message
  | _, _ => True
  end.

(** The argument is missing, or a blank text. *)
Definition missing_or_blank (v : option JsValue) : bool :=
  match v with
  | None | Some VUndefined | Some VNull => true
  | Some (VStr s) => blank s
  | Some _ => false
  end.

(** The argument is a text, or missing. *)
Definition text_or_missing (v : option JsValue) : bool :=
  match v with
  | None | Some VUndefined | Some VNull | Some (VStr _) => true
  | Some _ => false
  end.

(** The argument is something [[...(v || [])]] can iterate: a list, a text,
    or a falsy value. *)
Definition iterable_or_falsy (v : option JsValue) : bool :=
  match v with
  | None | Some (VArr _) | Some (VStr _) => true
  | Some v => negb (js_truthy v)
  end.

(** Arguments on which [execute] applies no operation to a value of the
    wrong kind: [task] and [role] are texts or missing, [tools] is iterable
    or falsy.  The arguments that the tool's parameter schema declares
    ([task] and [role] strings, [tools] an array of strings) are of this
    form. *)
Definition well_typed_args (args : JsRecord) : Prop :=
  text_or_missing (args !! "task") = true
  ∧ text_or_missing (args !! "role") = true
  ∧ iterable_or_falsy (args !! "tools") = true.

(** The additional tool names of a call, [[...(args.tools || [])]], when the
    spread does not throw. *)
Definition additional_of (args : JsRecord) : list JsValue :=
  match spread "additionalToolNames"
          (js_or (default VUndefined (args !! "tools")) (VArr [])) with
  | Returned additional => additional
  | Thrown _ => []
  end.

(** The configuration [execute] hands to [runSubAgent]. *)
Definition sub_agent_of (config : DelegationToolConfig) (args : JsRecord)
    (provider : Provider) : SubAgentConfig :=
  {| cfg_task := text_of (default VUndefined (args !! "task"));
     cfg_role := text_of (default VUndefined (args !! "role"));
     cfg_provider := provider;
     cfg_tools :=
       subAgentTools (allTools config)
         (allowedToolNames (default DEFAULT_SAFE_TOOLS (defaultSubAgentTools config))
            (additional_of args));
     cfg_timeout := None |}.


(** ** The history of a run *)

Definition assistant_text (content : string) : Message :=
  {| msg_role := RoleAssistant; msg_content := content;
     msg_toolCalls := None; msg_toolCallId := None |}.

Definition assistant_call (content : string) (toolCall : ToolCall) : Message :=
  {| msg_role := RoleAssistant; msg_content := content;
     msg_toolCalls := Some [toolCall]; msg_toolCallId := None |}.

Definition tool_result (result : string) (id : string) : Message :=
  {| msg_role := RoleTool; msg_content := result;
     msg_toolCalls := None; msg_toolCallId := Some id |}.

(** What a run appends to its history: for every tool call it handles, the
    assistant's message (the raw text when the call was read off a text, the
    single call when it was a native one) and then the tool's result under
    the id of the call. *)
Inductive exchanges : list Message → Prop :=
  | exchanges_nil :
      exchanges []
  | exchanges_text content id result rest :
      exchanges rest →
      exchanges (assistant_text content :: tool_result result id :: rest)
  | exchanges_native content toolCall result rest :
      exchanges rest →
      exchanges (assistant_call content toolCall
                 :: tool_result result (tc_id toolCall) :: rest).

(** The messages appended for the native calls of one response, given the
    texts their executions returned. *)
Definition native_exchanges (content : string) (calls : list ToolCall)
    (results : list string) : list Message :=
  List.concat (zip_with (fun tc result =>
                      [assistant_call content tc; tool_result result (tc_id tc)])
                   calls results).

(** The names among [names] that a granted tool bears, in order. *)
Definition granted_names (tools : list Tool) (names : list string) : list string :=
  filter (fun name => name ∈ tool_name <$> tools) names.

(** ** Counting the chats of a log *)

Definition is_chat (a : Await) : bool :=
  match aw_call a with
  | CallChat _ _ => true
  | _ => false
  end.

Definition chats (awaits : list Await) : nat := List.length (List.filter is_chat awaits).

(** Every awaited call of the log is tagged with the number of chats begun
    up to it, counting from [k]. *)
Fixpoint numbered (k : nat) (awaits : list Await) : Prop :=
  match awaits with
  | [] => True
  | a :: rest =>
      let k' := if is_chat a then S k else k in
      aw_iterations a = k' ∧ numbered k' rest
  end.

(** The awaited chat of pass [i], settled with [answer] in world [w']. *)
Definition chat_await (provider : Provider) (tools : list Tool) (i : nat)
    (answer : Outcome LLMResponse) (w' : World) : Await :=
  {| aw_call := CallChat (provider_id provider) (tool_name <$> tools);
     aw_result := settled_as ChatAnswer answer;
     aw_settled := clock w'; aw_i := i; aw_iterations := i + 1 |}.

(** The call that resolves the provider of an invocation. *)
Definition is_resolution (c : Call) : bool :=
  match c with
  | CallGetForTier _ | CallRouteWithHealth _ => true
  | _ => false
  end.

(** A configuration with another timeout. *)
Definition with_timeout (config : SubAgentConfig) (timeout : Z) : SubAgentConfig :=
  {| cfg_task := cfg_task config; cfg_role := cfg_role config;
     cfg_provider := cfg_provider config; cfg_tools := cfg_tools config;
     cfg_timeout := Some timeout |}.

(** A text that spells a tool call: the extraction finds one (whether it
    does depends on the text alone, not on the world). *)
Definition spells_tool_call (text : string) : Prop :=
  ∀ w, ∃ toolCall w', extractToolCallFromText text w = (Returned (Some toolCall), w').

(** An awaited call of the log that, if it is a chat, was not answered by a
    final text: the answer is of native tool calls, or a text that spells a
    tool call. *)
Definition not_final (a : Await) : Prop :=
  match aw_call a with
  | CallChat _ _ =>
      ∃ resp, aw_result a = Returned (ChatAnswer resp)
              ∧ (resp_type resp = TypeToolCalls
                 ∨ (resp_type resp = TypeText
                    ∧ spells_tool_call (default "" (resp_content resp))))
  | _ => True
  end.

End Notions.

(** ** Statements of the specification that do not hold *)


(** C7, as the specification words it: the name is the value of the first
    alias key present, and all the remaining keys of the object form the
    arguments (up to the normalization of [filename]). *)
Definition remaining_keys_are_arguments : Prop :=
  ∀ (P : Platform) (text : string) (w : World) (s e : nat) (props : JsRecord)
    (key : string) (v : JsValue) (name : string),
    first_at "{" text s → last_at "}" text e → (s < e)%nat →
    JSON_parse (slice s (e + 1) text) = Some (VObj props) →
    resolves_alias props key v →
    js_String v = Returned name → name ≠ "" →
    ∃ toolCall w',
      extractToolCallFromText text w = (Returned (Some toolCall), w')
      ∧ tc_name toolCall = name
      ∧ ∀ k, k ≠ key → k ≠ "filename" → tc_arguments toolCall !! k = props !! k.

(** * Properties *)

(** ** What the string functions compute *)

Lemma indexOf_None c s : indexOf c s = None ↔ absent c s.
Proof.
  unfold absent. induction s as [|a s IH]; simpl.
  - split; [intros _ n; by destruct n | done].
  - destruct (Ascii.eqb_spec a c) as [->|Hne].
    + split; [done | intros H; by specialize (H 0%nat)].
    + rewrite fmap_None, IH. split.
      * intros H [|n]; [congruence | apply H].
      * intros H n. apply (H (S n)).
Qed.

Lemma indexOf_Some c s n : indexOf c s = Some n ↔ first_at c s n.
Proof.
  unfold first_at. revert n. induction s as [|a s IH]; intros n; simpl.
  - split; [done | intros [H _]; by destruct n].
  - destruct (Ascii.eqb_spec a c) as [->|Hne].
    + split.
      * intros [= <-]. split; [done | lia].
      * intros [_ H]. destruct n as [|n]; [done|].
        exfalso. by apply (H 0%nat); [lia|].
    + rewrite fmap_Some. split.
      * intros (k & Hk & ->). apply IH in Hk as [Hget Hlt].
        split; [done|]. intros [|m] Hm; [simpl; congruence|].
        apply Hlt. lia.
      * intros [Hget Hlt]. destruct n as [|n]; [simpl in Hget; congruence|].
        exists n. split; [|done]. apply IH. split; [done|].
        intros m Hm. apply (Hlt (S m)). lia.
Qed.

Lemma lastIndexOf_None c s : lastIndexOf c s = None ↔ absent c s.
Proof.
  unfold absent. induction s as [|a s IH]; simpl.
  - split; [intros _ n; by destruct n | done].
  - destruct (lastIndexOf c s) as [k|] eqn:Hl.
    + split; [done|]. intros H. exfalso.
      assert (Some k = None) as Habs; [|done].
      apply IH. intros n. apply (H (S n)).
    + destruct (Ascii.eqb_spec a c) as [->|Hne].
      * split; [done | intros H; by specialize (H 0%nat)].
      * split; [|done]. intros _ [|n]; [simpl; congruence|].
        by apply IH.
Qed.

Lemma lastIndexOf_Some c s n : lastIndexOf c s = Some n ↔ last_at c s n.
Proof.
  unfold last_at. revert n. induction s as [|a s IH]; intros n; simpl.
  - split; [done | intros [H _]; by destruct n].
  - destruct (lastIndexOf c s) as [k|] eqn:Hl.
    + pose proof (proj1 (IH k) eq_refl) as [Hk Hafter]. split.
      * intros [= <-]. split; [done|].
        intros [|m] Hm; [lia|]. apply Hafter. lia.
      * intros [Hget Hgt]. destruct n as [|n].
        { exfalso. by apply (Hgt (S k)); [lia|]. }
        f_equal. destruct (IH n) as [_ Hback].
        assert (Some k = Some n) as [= ->]; [|done].
        apply Hback. split; [done|]. intros m Hm. apply (Hgt (S m)). lia.
    + pose proof (proj1 (lastIndexOf_None c s) Hl) as Habs.
      destruct (Ascii.eqb_spec a c) as [->|Hne].
      * split.
        -- intros [= <-]. split; [done|]. intros [|m] Hm; [lia|]. apply Habs.
        -- intros [Hget _]. destruct n as [|n]; [done|]. by apply Habs in Hget.
      * split; [done|]. intros [Hget _]. destruct n as [|n].
        -- simpl in Hget. congruence.
        -- by apply Habs in Hget.
Qed.

Lemma first_at_unique c s n m : first_at c s n → first_at c s m → n = m.
Proof. intros H1 H2. apply indexOf_Some in H1, H2. congruence. Qed.

Lemma last_at_unique c s n m : last_at c s n → last_at c s m → n = m.
Proof. intros H1 H2. apply lastIndexOf_Some in H1, H2. congruence. Qed.

(** ** What [trim] computes *)

Lemma string_length_ind (P : string → Prop) :
  (∀ s, (∀ t, (String.length t < String.length s)%nat → P t) → P s) → ∀ s, P s.
Proof.
  intros Hstep s. remember (String.length s) as n eqn:Hn.
  revert s Hn. induction (lt_wf n) as [n _ IH]. intros s ->.
  apply Hstep. intros t Hlt. by apply (IH (String.length t)).
Qed.

Lemma blank_trimStart s : blank (trimStart s) = blank s.
Proof.
  induction s as [s IH] using string_length_ind.
  destruct s as [|a rest]; [done|]. cbn [trimStart blank].
  destruct (is_whitespace1 a) eqn:Ha; [apply IH; simpl; lia|].
  destruct rest as [|b rest]; [cbn [blank]; by rewrite Ha|].
  destruct (is_whitespace2 a b) eqn:Hab; [apply IH; simpl; lia|].
  destruct rest as [|c rest]; [cbn [blank]; by rewrite Ha, Hab|].
  destruct (is_whitespace3 a b c) eqn:Habc; [apply IH; simpl; lia|].
  cbn [blank]. by rewrite Ha, Hab, Habc.
Qed.

Lemma trimEnd_empty s : trimEnd s = EmptyString ↔ blank s = true.
Proof.
  destruct s as [|a rest]; [done|]. cbn [trimEnd].
  by destruct (blank (String a rest)).
Qed.

(** [s.trim()] is empty exactly for the blank texts. *)
Lemma trim_empty s : trim s = EmptyString ↔ blank s = true.
Proof. unfold trim. by rewrite trimEnd_empty, blank_trimStart. Qed.

(** No byte of a blank text is a closing brace. *)
Lemma blank_no_brace s : blank s = true → absent "}" s.
Proof.
  induction s as [s IH] using string_length_ind. intros Hblank.
  assert (∀ a, is_whitespace1 a = true → a ≠ "}"%char) as H1.
  { intros a Ha ->. done. }
  assert (∀ a b, is_whitespace2 a b = true → a ≠ "}"%char ∧ b ≠ "}"%char) as H2.
  { intros a b Hab. unfold is_whitespace2 in Hab.
    apply andb_true_iff in Hab as [Ha%Nat.eqb_eq Hb%Nat.eqb_eq].
    split; intros ->; done. }
  assert (∀ a b c, is_whitespace3 a b c = true →
            a ≠ "}"%char ∧ b ≠ "}"%char ∧ c ≠ "}"%char) as H3.
  { intros a b c Habc. unfold is_whitespace3 in Habc.
    repeat split; intros ->; cbn in Habc;
      rewrite ?andb_false_r, ?andb_false_l, ?orb_false_r, ?orb_false_l in Habc;
      try done;
      repeat match type of Habc with
             | (_ && _ = true) => apply andb_true_iff in Habc as [? Habc]
             | (_ || _ = true) => apply orb_true_iff in Habc as [Habc|Habc]
             end; done. }
  destruct s as [|a rest]; [by intros [|n]|].
  cbn [blank] in Hblank. destruct (is_whitespace1 a) eqn:Ha.
  { intros [|n]; simpl; [intros [= ->]; by destruct (H1 _ Ha)|].
    apply IH; [simpl; lia|done]. }
  destruct rest as [|b rest]; [done|].
  destruct (is_whitespace2 a b) eqn:Hab.
  { destruct (H2 _ _ Hab) as [Hna Hnb].
    intros [|[|n]]; simpl; [congruence|congruence|].
    apply IH; [simpl; lia|done]. }
  destruct rest as [|c rest]; [done|].
  destruct (is_whitespace3 a b c) eqn:Habc; [|done].
  destruct (H3 _ _ _ Habc) as (Hna & Hnb & Hnc).
  intros [|[|[|n]]]; simpl; [congruence|congruence|congruence|].
  apply IH; [simpl; lia|done].
Qed.

(** A text that ends with a closing brace has no white space at its end. *)
Lemma trimEnd_brace s k :
  String.get k s = Some "}"%char → String.get (S k) s = None → trimEnd s = s.
Proof.
  revert k. induction s as [|a s IH]; intros k Hk Hend; [done|].
  cbn [trimEnd].
  destruct (blank (String a s)) eqn:Hblank.
  { apply blank_no_brace in Hblank. by destruct (Hblank k). }
  f_equal. destruct k as [|k]; simpl in Hk, Hend.
  - by destruct s.
  - by apply (IH k).
Qed.

(** A text that begins with an opening brace has no white space at its
    start. *)
Lemma trimStart_brace s : String.get 0 s = Some "{"%char → trimStart s = s.
Proof.
  destruct s as [|a [|b [|c rest]]]; [done|..]; simpl; intros [= ->]; done.
Qed.

(** The slice from the first [{] to the last [}] is its own trim. *)
Lemma trim_brace_slice text s e :
  first_at "{" text s → last_at "}" text e → (s < e)%nat →
  trim (slice s (e + 1) text) = slice s (e + 1) text.
Proof.
  intros [Hs _] [He _] Hlt. unfold slice, trim.
  rewrite trimStart_brace.
  - apply (trimEnd_brace _ (e - s)).
    + rewrite substring_correct1 by lia. by replace (e - s + s)%nat with e by lia.
    + rewrite substring_correct2 by lia. done.
  - rewrite substring_correct1 by lia. by rewrite Nat.add_0_l.
Qed.

(** ** Positions in a concatenation *)

Lemma indexOf_bound c s n : indexOf c s = Some n → (n < String.length s)%nat.
Proof.
  revert n. induction s as [|a s IH]; intros n; simpl; [done|].
  destruct (Ascii.eqb a c).
  - intros [= <-]. lia.
  - rewrite fmap_Some. intros (k & Hk%IH & ->). lia.
Qed.

Lemma lastIndexOf_bound c s n : lastIndexOf c s = Some n → (n < String.length s)%nat.
Proof.
  revert n. induction s as [|a s IH]; intros n; simpl; [done|].
  destruct (lastIndexOf c s) as [k|].
  - intros [= <-]. specialize (IH k eq_refl). lia.
  - destruct (Ascii.eqb a c); [|done]. intros [= <-]. lia.
Qed.

Lemma append_nil_l (t : string) : "" +:+ t = t.
Proof. reflexivity. Qed.

Lemma append_cons (a : ascii) (s t : string) : String a s +:+ t = String a (s +:+ t).
Proof. reflexivity. Qed.

Lemma indexOf_app c s t :
  indexOf c (s +:+ t) =
    match indexOf c s with
    | Some n => Some n
    | None => (fun n => String.length s + n)%nat <$> indexOf c t
    end.
Proof.
  induction s as [|a s IH]; rewrite ?append_nil_l, ?append_cons; simpl.
  - destruct (indexOf c t); reflexivity.
  - destruct (Ascii.eqb a c); [done|]. rewrite IH.
    destruct (indexOf c s); [done|]. destruct (indexOf c t); reflexivity.
Qed.

Lemma lastIndexOf_app c s t :
  lastIndexOf c (s +:+ t) =
    match lastIndexOf c t with
    | Some n => Some (String.length s + n)%nat
    | None => lastIndexOf c s
    end.
Proof.
  induction s as [|a s IH]; rewrite ?append_nil_l, ?append_cons; simpl.
  - destruct (lastIndexOf c t); reflexivity.
  - rewrite IH. destruct (lastIndexOf c t); reflexivity.
Qed.

Lemma substring_app_skip pre s n len :
  substring (String.length pre + n) len (pre +:+ s) = substring n len s.
Proof. induction pre as [|a pre IH]; rewrite ?append_nil_l, ?append_cons; simpl; done. Qed.

Lemma substring_app_keep s t n len :
  (n + len ≤ String.length s)%nat →
  substring n len (s +:+ t) = substring n len s.
Proof.
  revert n len. induction s as [|a s IH]; intros n len Hle; simpl in Hle;
    rewrite ?append_nil_l, ?append_cons.
  - assert (n = 0 ∧ len = 0)%nat as [-> ->] by lia. by destruct t.
  - destruct n as [|n]; simpl.
    + destruct len as [|len]; [done|]. f_equal. apply IH. lia.
    + apply IH. lia.
Qed.

Lemma append_cancel (s a b : string) : s +:+ a = s +:+ b → a = b.
Proof.
  induction s as [|c s IH]; rewrite ?append_nil_l, ?append_cons; [done|].
  intros [= H]. by apply IH.
Qed.

Section Facts.

Context {platform : Platform}.

(** ** Tool-call extraction *)

Lemma decide_is_Some {A} (o : option A) :
  bool_decide (is_Some o) = match o with Some _ => true | None => false end.
Proof.
  destruct o; [by rewrite bool_decide_eq_true_2|].
  rewrite bool_decide_eq_false_2; [done|]. by intros [? ?].
Qed.

Lemma find_alias_none (props : JsRecord) :
  no_alias_key props →
  List.find (fun key => js_in key (VObj props)) TOOL_ACTION_KEYS = None.
Proof.
  intros (Ha & Ht & Hn). unfold TOOL_ACTION_KEYS; simpl.
  rewrite !bool_decide_eq_false_2; [done|..]; rewrite ?Ha, ?Ht, ?Hn;
    by intros [? ?].
Qed.

Lemma find_alias_some (props : JsRecord) key v :
  resolves_alias props key v →
  List.find (fun key => js_in key (VObj props)) TOOL_ACTION_KEYS = Some key
  ∧ js_get key (VObj props) = v.
Proof.
  unfold TOOL_ACTION_KEYS. intros [v' Ha|v' Ha Ht|v' Ha Ht Hn]; simpl.
  - rewrite bool_decide_eq_true_2 by (by rewrite Ha). by rewrite Ha.
  - rewrite bool_decide_eq_false_2 by (rewrite Ha; by intros [? ?]).
    rewrite bool_decide_eq_true_2 by (by rewrite Ht). by rewrite Ht.
  - rewrite bool_decide_eq_false_2 by (rewrite Ha; by intros [? ?]).
    rewrite bool_decide_eq_false_2 by (rewrite Ht; by intros [? ?]).
    rewrite bool_decide_eq_true_2 by (by rewrite Hn). by rewrite Hn.
Qed.

(** The extractor on a text whose braces are in order: everything turns on
    the parse of the slice. *)
Lemma extract_braces text w s e :
  first_at "{" text s → last_at "}" text e → (s < e)%nat →
  extractToolCallFromText text w =
    match JSON_parse (slice s (e + 1) text) with
    | Some (VObj props) =>
        match List.find (fun key => js_in key (VObj props)) TOOL_ACTION_KEYS with
        | Some key =>
            match js_String (js_get key (VObj props)) with
            | Thrown err => (Thrown err, w)
            | Returned toolName =>
                if String.eqb toolName "" then (Returned None, w) else
                (Returned
                   (Some {| tc_id := (randomUUID w).1;
                            tc_name := toolName;
                            tc_arguments :=
                              normalizeToolArguments
                                (delete "name" (delete "tool" (delete "action" props))) |}),
                 (randomUUID w).2)
            end
        | None => (Returned None, w)
        end
    | _ => (Returned None, w)
    end.
Proof.
  intros Hs He Hlt. unfold extractToolCallFromText.
  destruct (String.eqb_spec text "") as [->|_].
  { destruct Hs as [Hs _]. by destruct s. }
  rewrite (proj2 (indexOf_Some _ _ _) Hs), (proj2 (lastIndexOf_Some _ _ _) He).
  destruct (Nat.leb_spec e s) as [?|_]; [lia|].
  rewrite trim_brace_slice by done.
  destruct (JSON_parse (slice s (e + 1) text)) as [[| |b|r|t|items|props]|];
    cbn [js_truthy js_typeof_object negb orb]; rewrite ?orb_true_r; try done.
  destruct (List.find _ TOOL_ACTION_KEYS) as [key|] eqn:Hfind; cbn zeta; [|done].
  destruct (js_String _) as [toolName|err]; [|done].
  destruct (String.eqb _ ""); [done|]. by destruct (randomUUID w).
Qed.

(** C6. Extraction fails closed: a text without an opening or a closing
    brace, or whose last closing brace does not come after its first opening
    one, or whose brace-delimited slice does not parse, or parses to
    something other than an object, or to an object with none of the keys
    [action], [tool], [name], yields "not found" ([None]); the extractor's
    only throwing step, the parse, is caught, and the world is left as it
    was (no UUID is drawn). *)
Theorem extract_fails_closed (text : string) (w : World) :
  not_found_cause text → extractToolCallFromText text w = (Returned None, w).
Proof.
  intros [Habs|Habs|s e Hs He Hle|s e Hs He Hparse|s e v Hs He Hparse Hv
          |s e props Hs He Hparse Hkeys].
  - unfold extractToolCallFromText. destruct (String.eqb text ""); [done|].
    by rewrite (proj2 (indexOf_None _ _) Habs).
  - unfold extractToolCallFromText. destruct (String.eqb text ""); [done|].
    rewrite (proj2 (lastIndexOf_None _ _) Habs). by destruct (indexOf "{" text).
  - unfold extractToolCallFromText. destruct (String.eqb text ""); [done|].
    rewrite (proj2 (indexOf_Some _ _ _) Hs), (proj2 (lastIndexOf_Some _ _ _) He).
    by destruct (Nat.leb_spec e s); [|lia].
  - destruct (decide (s < e)%nat) as [Hlt|Hge].
    + by rewrite (extract_braces text w s e), Hparse.
    + unfold extractToolCallFromText. destruct (String.eqb text ""); [done|].
      rewrite (proj2 (indexOf_Some _ _ _) Hs), (proj2 (lastIndexOf_Some _ _ _) He).
      by destruct (Nat.leb_spec e s); [|lia].
  - destruct (decide (s < e)%nat) as [Hlt|Hge].
    + rewrite (extract_braces text w s e), Hparse by done.
      destruct v; try done. by destruct (Hv props).
    + unfold extractToolCallFromText. destruct (String.eqb text ""); [done|].
      rewrite (proj2 (indexOf_Some _ _ _) Hs), (proj2 (lastIndexOf_Some _ _ _) He).
      by destruct (Nat.leb_spec e s); [|lia].
  - destruct (decide (s < e)%nat) as [Hlt|Hge].
    + by rewrite (extract_braces text w s e), Hparse, find_alias_none.
    + unfold extractToolCallFromText. destruct (String.eqb text ""); [done|].
      rewrite (proj2 (indexOf_Some _ _ _) Hs), (proj2 (lastIndexOf_Some _ _ _) He).
      by destruct (Nat.leb_spec e s); [|lia].
Qed.

(** Every "not found" has one of these causes, or the alias value prints as
    the empty text. *)
Lemma extract_none_inv (text : string) (w w' : World) :
  extractToolCallFromText text w = (Returned None, w') →
  not_found_cause text
  ∨ ∃ s e props key v,
      first_at "{" text s ∧ last_at "}" text e ∧ (s < e)%nat
      ∧ JSON_parse (slice s (e + 1) text) = Some (VObj props)
      ∧ resolves_alias props key v ∧ js_String v = Returned "".
Proof.
  intros Hnone.
  destruct (indexOf "{" text) as [s|] eqn:Hs;
    [|left; by apply NoOpeningBrace, indexOf_None].
  destruct (lastIndexOf "}" text) as [e|] eqn:He;
    [|left; by apply NoClosingBrace, lastIndexOf_None].
  apply indexOf_Some in Hs. apply lastIndexOf_Some in He.
  destruct (decide (s < e)%nat) as [Hlt|Hge];
    [|left; apply (ClosingNotAfterOpening text s e); [done|done|lia]].
  rewrite (extract_braces text w s e) in Hnone by done.
  destruct (JSON_parse (slice s (e + 1) text)) as [v|] eqn:Hparse;
    [|left; by apply (ParseFailure text s e)].
  destruct v as [| |b|r|t|items|props];
    try (left; by apply (NotAnObject text s e _ Hs He Hparse)).
  assert (∀ key v, resolves_alias props key v →
            not_found_cause text
            ∨ ∃ s e props key v,
                first_at "{" text s ∧ last_at "}" text e ∧ (s < e)%nat
                ∧ JSON_parse (slice s (e + 1) text) = Some (VObj props)
                ∧ resolves_alias props key v ∧ js_String v = Returned "") as Hcase.
  { intros key v Halias. right. exists s, e, props, key, v.
    destruct (find_alias_some props key v Halias) as [Hfind Hget].
    rewrite Hfind, Hget in Hnone.
    destruct (js_String v) as [name|err]; [|done].
    destruct (String.eqb_spec name "") as [Hname|]; [|done].
    rewrite Hname. by do 5 (split; [done|]). }
  destruct (props !! "action") as [va|] eqn:Ha; [by apply (Hcase "action" va), ByAction|].
  destruct (props !! "tool") as [vt|] eqn:Ht; [by apply (Hcase "tool" vt), ByTool|].
  destruct (props !! "name") as [vn|] eqn:Hn; [by apply (Hcase "name" vn), ByName|].
  left. by apply (NoAliasKey text s e props).
Qed.

(** The alias that names the tool in what [find] finds. *)
Lemma find_alias_inv (props : JsRecord) (key : string) :
  List.find (fun key => js_in key (VObj props)) TOOL_ACTION_KEYS = Some key →
  resolves_alias props key (js_get key (VObj props)).
Proof.
  unfold TOOL_ACTION_KEYS. simpl. rewrite !decide_is_Some. intros Hfind.
  destruct (props !! "action") as [va|] eqn:Ha.
  { injection Hfind as <-. rewrite Ha. by apply ByAction. }
  destruct (props !! "tool") as [vt|] eqn:Ht.
  { injection Hfind as <-. rewrite Ht. by apply ByTool. }
  destruct (props !! "name") as [vn|] eqn:Hn; [|done].
  injection Hfind as <-. rewrite Hn. by apply ByName.
Qed.

(** What the extraction did on a text, when it found a call or threw: the
    braces are in order and the slice is an object with an alias key. *)
Lemma extract_alias_inv (text : string) (w w' : World)
    (o : Outcome (option ToolCall)) :
  extractToolCallFromText text w = (o, w') →
  o ≠ Returned None →
  ∃ s e props key v,
    first_at "{" text s ∧ last_at "}" text e ∧ (s < e)%nat
    ∧ JSON_parse (slice s (e + 1) text) = Some (VObj props)
    ∧ resolves_alias props key v
    ∧ match js_String v with
      | Returned name => name ≠ "" ∧ ∃ toolCall, o = Returned (Some toolCall)
      | Thrown err => o = Thrown err ∧ w' = w
      end.
Proof.
  intros Hrun Hfound.
  assert (∃ s e, indexOf "{" text = Some s ∧ lastIndexOf "}" text = Some e
                 ∧ (s < e)%nat) as (s & e & Hs & He & Hlt).
  { unfold extractToolCallFromText in Hrun.
    destruct (String.eqb text ""); [by simplify_eq|].
    destruct (indexOf "{" text) as [s|]; [|by simplify_eq].
    destruct (lastIndexOf "}" text) as [e|]; [|by simplify_eq].
    destruct (Nat.leb_spec e s); [by simplify_eq|]. by exists s, e. }
  apply indexOf_Some in Hs. apply lastIndexOf_Some in He.
  exists s, e.
  rewrite (extract_braces text w s e) in Hrun by done.
  destruct (JSON_parse (slice s (e + 1) text)) as [[| |b|r|t|items|props]|];
    try by simplify_eq.
  exists props.
  destruct (List.find _ TOOL_ACTION_KEYS) as [key|] eqn:Hfind; [|by simplify_eq].
  exists key, (js_get key (VObj props)).
  do 4 (split; [done|]). split; [by apply find_alias_inv|].
  destruct (js_String (js_get key (VObj props))) as [name|err]; [|by simplify_eq].
  destruct (String.eqb_spec name "") as [_|Hname].
  { injection Hrun as <- _. done. }
  split; [done|]. injection Hrun as <- _. by eexists.
Qed.

(** Every successful extraction is one of an object with an alias key
    whose value prints, and not as the empty text. *)
Lemma extract_some_inv (text : string) (w w' : World) (toolCall : ToolCall) :
  extractToolCallFromText text w = (Returned (Some toolCall), w') →
  ∃ s e props key v name,
    first_at "{" text s ∧ last_at "}" text e ∧ (s < e)%nat
    ∧ JSON_parse (slice s (e + 1) text) = Some (VObj props)
    ∧ resolves_alias props key v ∧ js_String v = Returned name ∧ name ≠ "".
Proof.
  intros Hsome.
  destruct (extract_alias_inv text w w' _ Hsome)
    as (s & e & props & key & v & Hs & He & Hlt & Hparse & Halias & Hname); [done|].
  exists s, e, props, key, v.
  destruct (js_String v) as [name|err]; [|by destruct Hname].
  exists name. by destruct Hname.
Qed.

(** *** Argument-name normalization *)


Lemma normalize_other (args : JsRecord) (k : string) :
  k ≠ "filename" → normalizeToolArguments args !! k = args !! k.
Proof.
  intros Hk. unfold normalizeToolArguments.
  repeat case_match; by rewrite ?lookup_insert_ne.
Qed.

Lemma normalize_filename (args : JsRecord) :
  normalizeToolArguments args !! "filename" =
    match args !! "filename", args !! "file_path" with
    | Some x, _ => Some x
    | None, Some x => Some x
    | None, None => args !! "path"
    end.
Proof.
  unfold normalizeToolArguments. cbv zeta. rewrite !decide_is_Some.
  destruct (args !! "filename") as [x|] eqn:Hf; cbn [negb andb].
  { by rewrite Hf. }
  destruct (args !! "file_path") as [y|] eqn:Hp; cbn [negb andb default].
  { rewrite lookup_insert_eq. cbn [negb andb]. by rewrite lookup_insert_eq. }
  rewrite Hf. cbn [negb andb].
  destruct (args !! "path") as [z|] eqn:Hz; cbn [negb andb default].
  - by rewrite lookup_insert_eq.
  - done.
Qed.

(** Normalization leaves alone the arguments that name their file as
    [filename], or not at all. *)
Lemma normalize_id (args : JsRecord) :
  is_Some (args !! "filename")
  ∨ (args !! "file_path" = None ∧ args !! "path" = None) →
  normalizeToolArguments args = args.
Proof.
  intros Hargs. apply map_eq. intros k.
  destruct (decide (k = "filename")) as [->|Hk]; [|by apply normalize_other].
  rewrite normalize_filename.
  destruct Hargs as [[x Hx]|[Hp Hq]].
  - by rewrite Hx.
  - rewrite Hp, Hq. by destruct (args !! "filename").
Qed.

(** C7, amended. When the brace-delimited slice parses to an object, the
    recovered call is named by the value of the first of [action], [tool],
    [name] that the object has, printed as text (a string value is taken as
    it is); its arguments are the keys of the object other than [action],
    [tool] and [name], all three of which are left out whichever of them
    named the tool, after normalization ([filename], when absent, is adopted
    from [file_path], failing that from [path]); and a minimal payload
    [{action: n, ...args}] whose arguments need no normalization comes back
    as the call [n] with those very arguments.  Extraction succeeds whenever
    the value prints and the name so read is not the empty text. *)
Theorem extract_recovers_call (text : string) (w : World) (s e : nat)
    (props : JsRecord) (key : string) (v : JsValue) (name : string) :
  first_at "{" text s → last_at "}" text e → (s < e)%nat →
  JSON_parse (slice s (e + 1) text) = Some (VObj props) →
  resolves_alias props key v →
  js_String v = Returned name →
  name ≠ "" →
  ∃ toolCall,
    extractToolCallFromText text w = (Returned (Some toolCall), (randomUUID w).2)
    ∧ tc_id toolCall = (randomUUID w).1
    ∧ tc_name toolCall = name
    ∧ (∀ n, v = VStr n → tc_name toolCall = n)
    ∧ (∀ k, k ≠ "filename" →
         tc_arguments toolCall !! k =
           if decide (k ∈ TOOL_ACTION_KEYS) then None else props !! k)
    ∧ tc_arguments toolCall !! "filename" =
        match props !! "filename", props !! "file_path" with
        | Some x, _ => Some x
        | None, Some x => Some x
        | None, None => props !! "path"
        end
    ∧ (∀ n args,
         props = <["action" := VStr n]> args → no_alias_key args →
         is_Some (args !! "filename")
         ∨ (args !! "file_path" = None ∧ args !! "path" = None) →
         toolCall = {| tc_id := (randomUUID w).1; tc_name := n; tc_arguments := args |}).
Proof.
  intros Hs He Hlt Hparse Halias Hprint Hname.
  destruct (find_alias_some props key v Halias) as [Hfind Hget].
  rewrite (extract_braces text w s e), Hparse, Hfind, Hget, Hprint by done.
  destruct (String.eqb_spec name "") as [?|_]; [done|].
  eexists. split; [reflexivity|]. cbn [tc_id tc_name tc_arguments].
  split; [done|]. split; [done|].
  split; [intros n ->; by injection Hprint|].
  split; [|split].
  - intros k Hk. rewrite normalize_other by done.
    unfold TOOL_ACTION_KEYS. case_decide as Hin.
    + rewrite !elem_of_cons in Hin.
      destruct Hin as [->|[->|[->|Hin]]]; [| | |by apply elem_of_nil in Hin].
      * by rewrite lookup_delete_ne, lookup_delete_ne, lookup_delete_eq.
      * by rewrite lookup_delete_ne, lookup_delete_eq.
      * by rewrite lookup_delete_eq.
    + rewrite !elem_of_cons in Hin.
      rewrite !lookup_delete_ne; [done|..]; intros <-; tauto.
  - rewrite normalize_filename. by rewrite !lookup_delete_ne.
  - intros n args -> (Ha & Ht & Hn) Hargs.
    rewrite delete_insert_eq, (delete_id _ "action"), (delete_id _ "tool"),
      (delete_id _ "name") by done.
    rewrite normalize_id by done.
    inversion Halias as [v' Hv|v' Hv|v' Hv]; rewrite lookup_insert_eq in Hv;
      [|done|done].
    injection Hv as <-. by injection Hprint as <-.
Qed.

(** ** The log of a run *)

Lemma logged_refl P st : logged P st st.
Proof. exists []. by rewrite app_nil_r. Qed.

Lemma logged_trans P st1 st2 st3 :
  logged P st1 st2 → logged P st2 st3 → logged P st1 st3.
Proof.
  intros (n1 & H1 & F1) (n2 & H2 & F2). exists (n1 ++ n2).
  split; [by rewrite H2, H1, app_assoc | by apply Forall_app].
Qed.

Lemma logged_weaken (P Q : Await → Prop) st st' :
  (∀ a, P a → Q a) → logged P st st' → logged Q st st'.
Proof.
  intros HPQ (new & Hnew & Hall). exists new. split; [done|].
  eapply Forall_impl; eauto.
Qed.

Lemma logged_one (P : Await → Prop) st st' a :
  rs_awaits st' = rs_awaits st ++ [a] → P a → logged P st st'.
Proof. intros Hst Ha. exists [a]. split; [done|]. by apply Forall_singleton. Qed.

(** ** The tool executor *)

Lemma find_tool_some (tools : list Tool) (name : string) (tool : Tool) :
  List.find (fun t => String.eqb (tool_name t) name) tools = Some tool →
  tool ∈ tools ∧ tool_name tool = name.
Proof.
  intros Hfind. apply find_some in Hfind as [Hin Heq].
  split; [by apply list_elem_of_In | by apply String.eqb_eq].
Qed.

Lemma find_tool_none (tools : list Tool) (name : string) :
  List.find (fun t => String.eqb (tool_name t) name) tools = None ↔
  name ∉ tool_name <$> tools.
Proof.
  split.
  - intros Hfind (t & -> & Hin)%list_elem_of_fmap.
    apply list_elem_of_In in Hin.
    pose proof (find_none _ _ Hfind t Hin) as Hneq. simpl in Hneq.
    by rewrite String.eqb_refl in Hneq.
  - intros Hnot. destruct (List.find _ tools) as [t|] eqn:Hfind; [|done].
    apply find_tool_some in Hfind as [Hin <-]. destruct Hnot.
    by apply list_elem_of_fmap_2.
Qed.

(** What the executor does, by cases on the lookup. *)
Lemma executeToolCall_missing (toolCall : ToolCall) (tools : list Tool) (st : RunState) :
  tc_name toolCall ∉ tool_name <$> tools →
  executeToolCall toolCall tools st =
    (Returned ("Error: Tool " +:+ dquote +:+ tc_name toolCall +:+ dquote +:+ " not found"),
     st).
Proof.
  intros Hnot. unfold executeToolCall.
  by rewrite (proj2 (find_tool_none tools (tc_name toolCall)) Hnot).
Qed.

Lemma executeToolCall_found (toolCall : ToolCall) (tools : list Tool) (st : RunState)
    (tool : Tool) :
  List.find (fun t => String.eqb (tool_name t) (tc_name toolCall)) tools = Some tool →
  executeToolCall toolCall tools st =
    (match (tool_execute tool (tc_arguments toolCall) (rs_world st)).1 with
     | Returned text => Returned text
     | Thrown err =>
         match err_message err with
         | Returned message => Returned ("Error: " +:+ message)
         | Thrown e => Thrown e
         end
     end,
     {| rs_world := (tool_execute tool (tc_arguments toolCall) (rs_world st)).2;
        rs_messages := rs_messages st;
        rs_i := rs_i st;
        rs_iterations := rs_iterations st;
        rs_awaits := rs_awaits st ++
          [ {| aw_call := CallTool (tool_name tool);
               aw_result :=
                 settled_as ToolAnswer
                   (tool_execute tool (tc_arguments toolCall) (rs_world st)).1;
               aw_settled :=
                 clock (tool_execute tool (tc_arguments toolCall) (rs_world st)).2;
               aw_i := rs_i st; aw_iterations := rs_iterations st |} ] |}).
Proof.
  intros Hfind. unfold executeToolCall, try_catch, await, bind, eval, ret.
  rewrite Hfind.
  destruct (tool_execute tool (tc_arguments toolCall) (rs_world st)) as [[text|err] w'];
    [done|].
  cbn [fst snd settled_as]. by destruct (err_message err).
Qed.

(** The executor, with the log it leaves: the execution of the tool called
    for when a granted tool bears the name, nothing otherwise.  It stays in
    the pass it was called in and leaves the messages alone; it throws only
    when the tool rejected with something whose message cannot be read. *)
Lemma executeToolCall_log (toolCall : ToolCall) (tools : list Tool) (st : RunState) :
  ∃ o st' new,
    executeToolCall toolCall tools st = (o, st')
    ∧ rs_messages st' = rs_messages st
    ∧ same_pass st st'
    ∧ rs_awaits st' = rs_awaits st ++ new
    ∧ aw_call <$> new = CallTool <$> granted_names tools [tc_name toolCall]
    ∧ Forall (tool_logged tools st) new
    ∧ match o with
      | Returned _ => Forall tool_handled new
      | Thrown e =>
          ∃ earlier a err,
            new = earlier ++ [a] ∧ Forall tool_handled earlier
            ∧ aw_result a = Thrown err ∧ err_message err = Thrown e
      end.
Proof.
  unfold granted_names. rewrite filter_cons, filter_nil.
  destruct (List.find (fun t => String.eqb (tool_name t) (tc_name toolCall)) tools)
    as [tool|] eqn:Hfind.
  - rewrite (executeToolCall_found toolCall tools st tool Hfind).
    apply find_tool_some in Hfind as [Hin Hname].
    assert (tc_name toolCall ∈ tool_name <$> tools) as Hgranted.
    { rewrite <- Hname. by apply list_elem_of_fmap_2. }
    eexists _, _, [_]. split; [reflexivity|]. split; [done|]. split; [done|].
    split; [reflexivity|]. rewrite decide_True by done.
    split; [by rewrite <- Hname|].
    split.
    { apply Forall_singleton. unfold tool_logged. cbn [aw_i aw_iterations aw_call].
      split; [done|]. split; [done|]. exists (tool_name tool). by rewrite Hname. }
    destruct (tool_execute tool (tc_arguments toolCall) (rs_world st)) as [[text|err] w'];
      cbn [fst snd settled_as].
    + by apply Forall_singleton.
    + destruct (err_message err) as [message|e] eqn:Hmessage.
      * apply Forall_singleton. unfold tool_handled. cbn [aw_call aw_result]. by eexists.
      * eexists [], _, err. by repeat split.
  - apply find_tool_none in Hfind.
    rewrite executeToolCall_missing by done.
    eexists _, st, []. rewrite app_nil_r, decide_False by done. by repeat split.
Qed.

(** ** The execution loop *)

Ltac run_projections H :=
  cbn [rs_world rs_messages rs_i rs_iterations rs_awaits] in H.
Ltac run_projections_goal :=
  cbn [rs_world rs_messages rs_i rs_iterations rs_awaits].

Lemma exchanges_app (l1 l2 : list Message) :
  exchanges l1 → exchanges l2 → exchanges (l1 ++ l2).
Proof. induction 1; intros; simpl; [done|constructor; auto..]. Qed.

Lemma exchanges_native_calls (content : string) (calls : list ToolCall) :
  ∀ results, exchanges (native_exchanges content calls results).
Proof.
  induction calls as [|tc calls IH]; intros [|result results]; try constructor.
  apply IH.
Qed.

Lemma granted_names_cons (tools : list Tool) (name : string) (names : list string) :
  granted_names tools (name :: names) =
    granted_names tools [name] ++ granted_names tools names.
Proof.
  unfold granted_names. rewrite !filter_cons, filter_nil. by case_decide.
Qed.

Lemma granted_names_app (tools : list Tool) (names names' : list string) :
  granted_names tools (names ++ names') =
    granted_names tools names ++ granted_names tools names'.
Proof. unfold granted_names. apply filter_app. Qed.

(** The native tool calls of one response are processed one after the
    other, in the order of the list, up to the first whose execution makes
    the executor throw. *)
Lemma native_calls_processed (tools : list Tool) (content : string)
    (calls : list ToolCall) :
  ∀ st, ∃ o st' handled results new,
    for_each calls (fun tc =>
      let* result := executeToolCall tc tools in
      let* _ := push {| msg_role := RoleAssistant; msg_content := content;
                        msg_toolCalls := Some [tc]; msg_toolCallId := None |} in
      push {| msg_role := RoleTool; msg_content := result;
              msg_toolCalls := None; msg_toolCallId := Some (tc_id tc) |}) st
    = (o, st')
    ∧ List.length results = List.length handled
    ∧ rs_messages st' = rs_messages st ++ native_exchanges content handled results
    ∧ same_pass st st'
    ∧ rs_awaits st' = rs_awaits st ++ new
    ∧ Forall (tool_logged tools st) new
    ∧ match o with
      | Returned _ =>
          handled = calls
          ∧ aw_call <$> new = CallTool <$> granted_names tools (tc_name <$> calls)
          ∧ Forall tool_handled new
      | Thrown e =>
          (∃ tc rest, calls = handled ++ tc :: rest
             ∧ aw_call <$> new =
                 CallTool <$> granted_names tools (tc_name <$> handled ++ [tc]))
          ∧ ∃ earlier a err,
              new = earlier ++ [a] ∧ Forall tool_handled earlier
              ∧ aw_result a = Thrown err ∧ err_message err = Thrown e
      end.
Proof.
  induction calls as [|tc calls IH]; intros st.
  - exists (Returned tt), st, [], [], []. rewrite !app_nil_r. by repeat split.
  - cbn [for_each]. unfold bind at 1. unfold bind at 1.
    destruct (executeToolCall_log tc tools st)
      as (o1 & st1 & new1 & -> & Hmsg & [Hi Hits] & Hnew & Hcalls & Hall & Hout).
    destruct o1 as [text|e].
    2:{ (* the executor throws: the pass ends before anything is pushed *)
        exists (Thrown e), st1, [], [], new1.
        split; [done|]. split; [done|]. split; [by rewrite app_nil_r|].
        split; [done|]. split; [done|]. split; [done|].
        split; [|done]. exists tc, calls. split; [done|]. by rewrite Hcalls. }
    unfold bind, push. run_projections_goal.
    match goal with |- context [for_each calls ?body ?s] =>
      destruct (IH s)
        as (o & st' & handled & results & new & Hrest & Hlen & Hmsg' & [Hi' Hits']
            & Hnew' & Hall' & Hout')
    end.
    run_projections Hi'. run_projections Hits'. run_projections Hmsg'.
    run_projections Hnew'.
    exists o, st', (tc :: handled), (text :: results), (new1 ++ new).
    split; [exact Hrest|]. split; [simpl; by rewrite Hlen|].
    split.
    { rewrite Hmsg', Hmsg. cbn [native_exchanges zip_with List.concat].
      by rewrite <- !app_assoc. }
    split; [split; congruence|].
    split; [by rewrite Hnew', Hnew, app_assoc|].
    assert (Forall (tool_logged tools st) new) as Hall''.
    { eapply Forall_impl; [exact Hall'|].
      intros a (Ha & Hb & Hc). run_projections Ha. run_projections Hb.
      split; [congruence|]. split; [congruence|]. done. }
    split; [by apply Forall_app|].
    destruct o as [[]|e].
    + destruct Hout' as (-> & Hcalls' & Hhandled).
      split; [done|]. split; [|by apply Forall_app].
      rewrite fmap_cons, granted_names_cons, !fmap_app. by rewrite Hcalls, Hcalls'.
    + destruct Hout' as [(tc' & rest & -> & Hcalls') (earlier & a & err & -> & Hearlier & Ha)].
      split; [|exists (new1 ++ earlier), a, err; rewrite app_assoc;
               split; [done|]; split; [by apply Forall_app|done]].
      exists tc', rest. split; [done|].
      rewrite <- app_comm_cons, fmap_cons, granted_names_cons.
      rewrite (fmap_app aw_call), (fmap_app CallTool).
      by rewrite Hcalls, Hcalls'.
Qed.

(** The log of a pass in which the executor threw. *)
Lemma unhandled_last (tools : list Tool) (i : nat) (new earlier : list Await)
    (a : Await) (err e : JsThrown) :
  Forall (fun a => aw_i a = i ∧ aw_iterations a = (i + 1)%nat
                   ∧ ∃ name, aw_call a = CallTool name
                             ∧ name ∈ tool_name <$> tools) new →
  new = earlier ++ [a] →
  aw_result a = Thrown err → err_message err = Thrown e →
  Exists (fun a => ¬ tool_handled a) new.
Proof.
  intros Hall -> Hresult Hmessage. apply Exists_app. right. apply Exists_cons_hd.
  apply Forall_app in Hall as [_ Ha]. rewrite Forall_singleton in Ha.
  destruct Ha as (_ & _ & name & Hcall & _).
  unfold tool_handled. rewrite Hcall, Hresult, Hmessage. by intros [? ?].
Qed.

(** One pass of the loop.  The chat is made with the history as it stands
    and logged; then either the loop ends in this pass (the chat rejects,
    the answer is a final text, the extraction throws, or the executor
    throws on a tool that rejected with something unreadable), or the pass
    handles the tool calls of the answer and the next pass begins.  What is
    appended to the history are whole exchanges, and what is logged after
    the chat are executions of granted tools. *)
Lemma loop_pass (provider : Provider) (tools : list Tool) (remaining i : nat)
    (st : RunState) :
  ∃ answer w1 added new,
    provider_chat provider (rs_messages st) tools (rs_world st) = (answer, w1)
    ∧ exchanges added
    ∧ Forall (fun a => aw_i a = i ∧ aw_iterations a = (i + 1)%nat
                       ∧ ∃ name, aw_call a = CallTool name
                                 ∧ name ∈ tool_name <$> tools) new
    ∧ ((∃ o st',
          loop provider tools (S remaining) i st = (o, st')
          ∧ rs_messages st' = rs_messages st ++ added
          ∧ rs_awaits st' = rs_awaits st ++ chat_await provider tools i answer w1 :: new
          ∧ rs_iterations st' = (i + 1)%nat
          ∧ ((∃ err, o = Thrown err)
             ∨ ∃ content,
                 o = Returned {| success := true; response := content;
                                 iterations := i + 1;
                                 providerId := provider_id provider |})
          ∧ (¬ not_final (chat_await provider tools i answer w1)
             ∨ Exists (fun a => ¬ tool_handled a) new))
       ∨ (∃ st2,
            loop provider tools (S remaining) i st
              = loop provider tools remaining (S i) st2
            ∧ rs_messages st2 = rs_messages st ++ added
            ∧ rs_awaits st2 = rs_awaits st ++ chat_await provider tools i answer w1 :: new
            ∧ rs_iterations st2 = (i + 1)%nat)).
Proof.
  remember (loop provider tools (S remaining) i st) as result eqn:Hres.
  cbn [loop] in Hres.
  unfold bind at 1 in Hres. unfold bind at 1 in Hres. unfold bind at 1 in Hres.
  unfold begin_pass, get_messages, await in Hres. run_projections Hres.
  destruct (provider_chat provider (rs_messages st) tools (rs_world st))
    as [answer w1]. exists answer, w1.
  assert (∀ (new : list Await) (st0 : RunState),
    rs_i st0 = i → rs_iterations st0 = (i + 1)%nat →
    Forall (tool_logged tools st0) new →
    Forall (fun a => aw_i a = i ∧ aw_iterations a = (i + 1)%nat
                     ∧ ∃ name, aw_call a = CallTool name
                               ∧ name ∈ tool_name <$> tools) new) as Htagged.
  { intros new st0 Hi Hits Hall. eapply Forall_impl; [exact Hall|].
    intros a (Ha & Hb & Hc). split; [congruence|]. split; [congruence|]. done. }
  destruct answer as [resp|err].
  2:{ (* the chat rejects *)
      exists [], []. split; [done|]. split; [constructor|]. split; [done|].
      left. eexists _, _. split; [exact Hres|]. run_projections_goal.
      rewrite app_nil_r. do 3 (split; [done|]). split; [left; by eexists|].
      left. by intros (resp & [=] & _). }
  cbn [settled_as] in Hres.
  destruct (resp_type resp) eqn:Htype.
  - (* text *)
    unfold bind at 1 in Hres. unfold sync in Hres. run_projections Hres.
    destruct (extractToolCallFromText (default "" (resp_content resp)) w1)
      as [[[tc|]|e] w2] eqn:Hext.
    + (* a tool call is spelled in the text *)
      unfold bind at 1 in Hres.
      match type of Hres with context [executeToolCall tc tools ?s] =>
        destruct (executeToolCall_log tc tools s)
          as (o & st3 & new & Hexec & Hmsg & [Hi Hits] & Hnew & _ & Hall & Hout)
      end.
      rewrite Hexec in Hres.
      run_projections Hmsg. run_projections Hi. run_projections Hits.
      run_projections Hnew.
      apply Htagged in Hall; [|done|done].
      destruct o as [text|e].
      * unfold bind, push in Hres. run_projections Hres.
        exists [assistant_text (default "" (resp_content resp));
                tool_result text (tc_id tc)], new.
        split; [done|]. split; [apply exchanges_text, exchanges_nil|].
        split; [done|]. right. eexists. split; [exact Hres|]. run_projections_goal.
        split; [by rewrite Hmsg, <- app_assoc|].
        split; [by rewrite Hnew, <- app_assoc|]. done.
      * exists [], new. split; [done|]. split; [constructor|]. split; [done|].
        left. exists (Thrown e), st3. split; [exact Hres|].
        split; [by rewrite Hmsg, app_nil_r|].
        split; [by rewrite Hnew, <- app_assoc|]. split; [done|].
        split; [left; by eexists|]. right.
        destruct Hout as (earlier & a & err & Hlast & _ & Hresult & Hmessage).
        by eapply unhandled_last.
    + (* the text is the final answer *)
      unfold bind, get_iterations, ret in Hres. run_projections Hres.
      exists [], []. split; [done|]. split; [constructor|]. split; [done|].
      left. eexists _, _. split; [exact Hres|]. run_projections_goal.
      rewrite app_nil_r. do 3 (split; [done|]). split; [right; by eexists|].
      left. intros (resp' & [= <-] & [Hcalls|[_ Hspells]]); [congruence|].
      destruct (Hspells w1) as (tc & w' & Hfound). congruence.
    + (* the extraction throws *)
      exists [], []. split; [done|]. split; [constructor|]. split; [done|].
      left. eexists _, _. split; [exact Hres|]. run_projections_goal.
      rewrite app_nil_r. do 3 (split; [done|]). split; [left; by eexists|].
      left. intros (resp' & [= <-] & [Hcalls|[_ Hspells]]); [congruence|].
      destruct (Hspells w1) as (tc & w' & Hfound). congruence.
  - (* native tool calls *)
    destruct (resp_toolCalls resp) as [[|tc0 calls]|];
      try (exists [], []; split; [done|]; split; [constructor|]; split; [done|];
           right; eexists; split; [exact Hres|]; run_projections_goal;
           by rewrite app_nil_r).
    unfold bind at 1 in Hres.
    match type of Hres with context [for_each ?l ?body ?s] =>
      destruct (native_calls_processed tools (default "" (resp_content resp)) l s)
        as (o & st3 & handled & results & new & Heach & _ & Hmsg & [Hi Hits] & Hnew
            & Hall & Hout);
      change (for_each l body s = (o, st3)) in Heach
    end.
    rewrite Heach in Hres.
    run_projections Hmsg. run_projections Hi. run_projections Hits.
    run_projections Hnew.
    apply Htagged in Hall; [|done|done].
    exists (native_exchanges (default "" (resp_content resp)) handled results), new.
    split; [done|]. split; [apply exchanges_native_calls|]. split; [done|].
    destruct o as [[]|e].
    + right. exists st3. split; [exact Hres|]. split; [done|].
      split; [by rewrite Hnew, <- app_assoc|]. done.
    + left. exists (Thrown e), st3. split; [exact Hres|]. split; [done|].
      split; [by rewrite Hnew, <- app_assoc|]. split; [done|].
      split; [left; by eexists|]. right.
      destruct Hout as [_ (earlier & a & err & Hlast & _ & Hresult & Hmessage)].
      by eapply unhandled_last.
Qed.

(** The log of the loop: chats with the backend and executions of granted
    tools, each tagged with its pass. *)
Lemma loop_spec (provider : Provider) (tools : list Tool) (remaining : nat) :
  ∀ i st o st',
    loop provider tools remaining i st = (o, st') →
    logged (loop_logged provider tools i (i + remaining)) st st'
    ∧ (remaining = 0%nat → rs_iterations st' = rs_iterations st)
    ∧ ((0 < remaining)%nat → (i < rs_iterations st' ≤ i + remaining)%nat)
    ∧ (∀ r, o = Returned r →
         iterations r = rs_iterations st' ∧ providerId r = provider_id provider).
Proof.
  induction remaining as [|n IH]; intros i st o st' Hrun.
  { cbn in Hrun. injection Hrun as <- <-.
    split; [apply logged_refl|]. split; [done|]. split; [lia|].
    by intros r [= <-]. }
  destruct (loop_pass provider tools n i st)
    as (answer & w1 & added & new & _ & _ & Hnew & Hpass).
  assert (Forall (loop_logged provider tools i (i + S n))
            (chat_await provider tools i answer w1 :: new)) as Hlogged.
  { apply Forall_cons. split.
    - repeat split; simpl; lia.
    - eapply Forall_impl; [exact Hnew|].
      intros a (Hi & Hits & name & Hcall & Hin).
      split; [lia|]. split; [lia|]. by rewrite Hcall. }
  destruct Hpass as [(o1 & st1 & Hrun1 & _ & Hlog & Hits & Hend & _)
                    |(st2 & Hrun2 & _ & Hlog & Hits)].
  - rewrite Hrun1 in Hrun. injection Hrun as <- <-.
    split; [by eexists|]. split; [done|]. split; [lia|].
    intros r ->. destruct Hend as [[err [=]]|[content [= ->]]]. by rewrite Hits.
  - rewrite Hrun2 in Hrun. apply IH in Hrun as (Hlog2 & Hzero & Hpos & Hres).
    split.
    { eapply logged_trans; [by eexists|].
      eapply logged_weaken; [|exact Hlog2].
      intros a (? & ? & ?). repeat split; try done; lia. }
    split; [done|]. split; [|done]. intros _.
    destruct n as [|n]; [rewrite Hzero by done; lia|].
    specialize (Hpos ltac:(lia)). lia.
Qed.

Lemma loop_history (provider : Provider) (tools : list Tool) (remaining : nat) :
  ∀ i st o st',
    loop provider tools remaining i st = (o, st') →
    ∃ added, rs_messages st' = rs_messages st ++ added ∧ exchanges added.
Proof.
  induction remaining as [|n IH]; intros i st o st' Hrun.
  { cbn in Hrun. injection Hrun as _ <-. exists []. rewrite app_nil_r.
    split; [done|constructor]. }
  destruct (loop_pass provider tools n i st)
    as (answer & w1 & added & new & _ & Hex & _
        & [(o1 & st1 & Hrun1 & Hmsg & _)|(st2 & Hrun2 & Hmsg & _)]).
  - rewrite Hrun1 in Hrun. injection Hrun as _ <-. by exists added.
  - rewrite Hrun2 in Hrun. apply IH in Hrun as (added2 & Hmsg2 & Hex2).
    exists (added ++ added2). rewrite Hmsg2, Hmsg, app_assoc.
    split; [done|by apply exchanges_app].
Qed.

Lemma chats_cons (a : Await) (l : list Await) :
  chats (a :: l) = if is_chat a then S (chats l) else chats l.
Proof. unfold chats. simpl. by destruct (is_chat a). Qed.

Lemma chats_app (l1 l2 : list Await) : chats (l1 ++ l2) = (chats l1 + chats l2)%nat.
Proof. unfold chats. by rewrite List.filter_app, List.length_app. Qed.

Lemma numbered_app (k : nat) (l1 l2 : list Await) :
  numbered k (l1 ++ l2) ↔ numbered k l1 ∧ numbered (k + chats l1) l2.
Proof.
  revert k. induction l1 as [|a l1 IH]; intros k.
  - simpl. rewrite Nat.add_0_r. tauto.
  - rewrite chats_cons. cbn [numbered app]. rewrite IH.
    destruct (is_chat a); rewrite ?Nat.add_succ_r; simpl; tauto.
Qed.

Lemma numbered_bound (k : nat) (l : list Await) (a : Await) :
  numbered k l → a ∈ l → (aw_iterations a ≤ k + chats l)%nat.
Proof.
  revert k. induction l as [|b l IH]; intros k Hnum Hin.
  { by apply elem_of_nil in Hin. }
  rewrite chats_cons. cbn [numbered] in Hnum. destruct Hnum as [Hb Hrest].
  apply elem_of_cons in Hin as [->|Hin].
  - destruct (is_chat b); lia.
  - specialize (IH _ Hrest Hin). destruct (is_chat b); lia.
Qed.

(** Tool executions of one pass: none is a chat, all bear the pass's tag. *)
Lemma numbered_tools (tools : list Tool) (i : nat) (l : list Await) :
  Forall (fun a => aw_i a = i ∧ aw_iterations a = (i + 1)%nat
                   ∧ ∃ name, aw_call a = CallTool name
                             ∧ name ∈ tool_name <$> tools) l →
  numbered (i + 1) l ∧ chats l = 0%nat.
Proof.
  induction 1 as [|a l (_ & Hits & name & Hcall & _) _ [IH1 IH2]]; [done|].
  rewrite chats_cons. cbn [numbered]. unfold is_chat. by rewrite Hcall.
Qed.

Lemma loop_chats (provider : Provider) (tools : list Tool) (remaining : nat) :
  ∀ i st o st',
    loop provider tools remaining i st = (o, st') →
    ∃ new,
      rs_awaits st' = rs_awaits st ++ new
      ∧ numbered i new
      ∧ (chats new + i)%nat = match remaining with
                              | O => i
                              | S _ => rs_iterations st'
                              end.
Proof.
  induction remaining as [|n IH]; intros i st o st' Hrun.
  { cbn in Hrun. injection Hrun as _ <-. exists []. by rewrite app_nil_r. }
  destruct (loop_pass provider tools n i st)
    as (answer & w1 & added & new & _ & _ & Hall & Hpass).
  destruct (numbered_tools _ _ _ Hall) as [Hnum Hnone].
  assert (numbered i (chat_await provider tools i answer w1 :: new)) as Hpassed.
  { cbn [numbered chat_await is_chat aw_call aw_iterations].
    split; [lia|]. by replace (S i) with (i + 1)%nat by lia. }
  destruct Hpass as [(o1 & st1 & Hrun1 & _ & Hlog & Hits & _)
                    |(st2 & Hrun2 & _ & Hlog & Hits)].
  - rewrite Hrun1 in Hrun. injection Hrun as _ <-. eexists.
    split; [exact Hlog|]. split; [done|].
    rewrite chats_cons, Hnone. cbn. lia.
  - rewrite Hrun2 in Hrun.
    pose proof (loop_spec provider tools n (S i) st2 o st' Hrun) as (_ & Hzero & _).
    apply IH in Hrun as (new2 & Hlog2 & Hnum2 & Hcount2).
    exists ((chat_await provider tools i answer w1 :: new) ++ new2).
    split; [by rewrite Hlog2, Hlog, <- app_assoc|].
    split.
    + apply numbered_app. split; [done|].
      rewrite chats_cons, Hnone. cbn [is_chat chat_await aw_call].
      by replace (i + 1)%nat with (S i) by lia.
    + rewrite chats_app, chats_cons, Hnone. cbn [is_chat chat_await aw_call].
      destruct n as [|n]; [rewrite Hzero by done|]; lia.
Qed.

(** The loop returns without success only from the [return] after the
    [for]. *)
Lemma loop_failure (provider : Provider) (tools : list Tool) (remaining : nat) :
  ∀ i st r st',
    loop provider tools remaining i st = (Returned r, st') →
    success r = false →
    response r = "Sub-agent reached maximum iterations without completing the task."
    ∧ iterations r = match remaining with
                     | O => rs_iterations st
                     | S _ => (i + remaining)%nat
                     end.
Proof.
  induction remaining as [|n IH]; intros i st r st' Hrun Hfailed.
  { cbn in Hrun. by injection Hrun as <- <-. }
  destruct (loop_pass provider tools n i st)
    as (answer & w1 & added & new & _ & _ & _
        & [(o1 & st1 & Hrun1 & _ & _ & _ & Hend & _)|(st2 & Hrun2 & _ & _ & Hits)]).
  - rewrite Hrun1 in Hrun. injection Hrun as -> _.
    destruct Hend as [[err [=]]|[content [= ->]]]. done.
  - rewrite Hrun2 in Hrun. apply IH in Hrun as [Hresp Hcount]; [|done].
    split; [done|]. rewrite Hcount. destruct n; lia.
Qed.

(** A loop none of whose chats is answered by a final text, and none of
    whose tool executions makes the executor throw, runs out its passes. *)
Lemma loop_exhausts (provider : Provider) (tools : list Tool) (remaining : nat) :
  ∀ i st o st' new,
    loop provider tools remaining i st = (o, st') →
    rs_awaits st' = rs_awaits st ++ new →
    Forall not_final new → Forall tool_handled new →
    o = Returned
          {| success := false;
             response :=
               "Sub-agent reached maximum iterations without completing the task.";
             iterations := match remaining with
                           | O => rs_iterations st
                           | S _ => i + remaining
                           end;
             providerId := provider_id provider |}.
Proof.
  induction remaining as [|n IH]; intros i st o st' log Hrun Hlog Hfinal Hhandled.
  { cbn in Hrun. by injection Hrun as <- _. }
  destruct (loop_pass provider tools n i st)
    as (answer & w1 & added & new & _ & _ & _
        & [(o1 & st1 & Hrun1 & _ & Hlog1 & _ & _ & Hwhy)|(st2 & Hrun2 & _ & Hlog2 & Hits)]).
  - rewrite Hrun1 in Hrun. injection Hrun as _ <-. exfalso.
    rewrite Hlog1 in Hlog. apply app_inv_head in Hlog. subst log.
    apply Forall_cons in Hfinal as [Hchat _]. apply Forall_cons in Hhandled as [_ Htools].
    destruct Hwhy as [Hnot|Hex]; [done|].
    apply Exists_exists in Hex as (a & Hin & Hnot).
    rewrite Forall_forall in Htools. by apply Hnot, Htools.
  - rewrite Hrun2 in Hrun.
    destruct (loop_spec provider tools n (S i) st2 o st' Hrun)
      as ((new2 & Hlog3 & _) & _).
    rewrite Hlog3, Hlog2, <- app_assoc in Hlog. apply app_inv_head in Hlog. subst log.
    apply Forall_app in Hfinal as [_ Hfinal]. apply Forall_app in Hhandled as [_ Hhandled].
    rewrite (IH (S i) st2 o st' new2 Hrun Hlog3 Hfinal Hhandled).
    destruct n as [|n]; [rewrite Hits|]; do 2 f_equal; lia.
Qed.

(** ** The timeout race *)

Lemma first_late_some (deadline : Z) (awaits : list Await) (a : Await) :
  first_late deadline awaits = Some a → a ∈ awaits ∧ deadline ≤ aw_settled a.
Proof.
  intros Hfind. apply find_some in Hfind as [Hin Hlate].
  split; [by apply list_elem_of_In|]. unfold timer_first in Hlate. lia.
Qed.

Lemma first_late_none (deadline : Z) (awaits : list Await) :
  first_late deadline awaits = None ↔
  Forall (fun a => timer_first deadline a = false) awaits.
Proof.
  rewrite Forall_forall. split.
  - intros Hfind a Hin%list_elem_of_In. apply (find_none _ _ Hfind a Hin).
  - intros Hall. destruct (first_late deadline awaits) as [a|] eqn:Hfind; [|done].
    apply find_some in Hfind as [Hin%list_elem_of_In Hlate].
    apply Hall in Hin. congruence.
Qed.

(** A timer due later fires in no run in which an earlier one does not. *)
Lemma first_late_later (deadline deadline' : Z) (awaits : list Await) :
  deadline ≤ deadline' →
  first_late deadline awaits = None → first_late deadline' awaits = None.
Proof.
  rewrite !first_late_none. intros Hle Hall.
  eapply Forall_impl; [exact Hall|]. intros a. unfold timer_first.
  destruct (timer_wins_tie a); lia.
Qed.

Lemma runSubAgent_race (config : SubAgentConfig) (w : World) :
  (runSubAgent config w).1 =
    match pending_at_deadline config w with
    | Some a =>
        Returned {| success := false;
                    response := "Sub-agent error: Sub-agent timed out";
                    iterations := aw_iterations a;
                    providerId := provider_id (cfg_provider config) |}
    | None =>
        match (unguarded config w).1 with
        | Returned result => Returned result
        | Thrown err =>
            match err_message err with
            | Returned message =>
                Returned {| success := false;
                            response := "Sub-agent error: " +:+ message;
                            iterations := rs_iterations (unguarded config w).2;
                            providerId := provider_id (cfg_provider config) |}
            | Thrown e => Thrown e
            end
        end
    end
  ∧ (runSubAgent config w).2 = (unguarded config w).2.
Proof.
  unfold runSubAgent, race.
  destruct (run _ _ _) as [settled st]. cbn [fst snd].
  destruct (first_late _ _) as [a|]; [done|].
  destruct settled as [result|err]; [done|]. by destruct (err_message err).
Qed.

(** The log of a guarded run: every awaited call is a chat with the
    configured backend or the execution of a granted tool, made in a pass
    [i < 10] with [iterations = i + 1]. *)
Lemma unguarded_spec (config : SubAgentConfig) (w : World) :
  Forall (loop_logged (cfg_provider config) (cfg_tools config) 0 10)
         (rs_awaits (unguarded config w).2)
  ∧ (0 < rs_iterations (unguarded config w).2 ≤ 10)%nat
  ∧ (∀ r, (unguarded config w).1 = Returned r →
       iterations r = rs_iterations (unguarded config w).2
       ∧ providerId r = provider_id (cfg_provider config)).
Proof.
  unfold run.
  destruct (loop _ _ _ _ _) as [o st'] eqn:Hrun.
  apply loop_spec in Hrun as ((new & Hnew & Hall) & _ & Hpos & Hres).
  cbn [fst snd]. split; [by rewrite Hnew|].
  split; [|done]. unfold SUB_AGENT_MAX_ITERATIONS in Hpos.
  specialize (Hpos ltac:(lia)). lia.
Qed.

(** The chats of a run left alone are counted by [iterations], at every
    awaited call and at the end. *)
Lemma unguarded_chats (config : SubAgentConfig) (w : World) :
  numbered 0 (rs_awaits (unguarded config w).2)
  ∧ chats (rs_awaits (unguarded config w).2) = rs_iterations (unguarded config w).2.
Proof.
  unfold run.
  destruct (loop _ _ _ _ _) as [o st'] eqn:Hrun.
  apply loop_chats in Hrun as (new & Hnew & Hnum & Hcount).
  cbn [fst snd]. rewrite Hnew. cbn [initial_state rs_awaits app].
  split; [done|]. unfold SUB_AGENT_MAX_ITERATIONS in Hcount. lia.
Qed.

Lemma unguarded_failure (config : SubAgentConfig) (w : World) (r : SubAgentResult) :
  (unguarded config w).1 = Returned r →
  success r = false →
  response r = "Sub-agent reached maximum iterations without completing the task."
  ∧ iterations r = 10%nat.
Proof.
  unfold run.
  destruct (loop _ _ _ _ _) as [o st'] eqn:Hrun.
  cbn [fst]. intros -> Hfailed.
  apply loop_failure in Hrun as [Hresp Hcount]; [|done].
  split; [done|]. unfold SUB_AGENT_MAX_ITERATIONS in Hcount. lia.
Qed.

Lemma unguarded_history (config : SubAgentConfig) (w : World) :
  ∃ added,
    rs_messages (unguarded config w).2 = rs_messages (initial_state config w) ++ added
    ∧ exchanges added.
Proof.
  unfold run.
  destruct (loop _ _ _ _ _) as [o st'] eqn:Hrun.
  apply loop_history in Hrun. exact Hrun.
Qed.

Lemma unguarded_exhausts (config : SubAgentConfig) (w : World) :
  Forall not_final (rs_awaits (unguarded config w).2) →
  Forall tool_handled (rs_awaits (unguarded config w).2) →
  (unguarded config w).1 =
    Returned {| success := false;
                response :=
                  "Sub-agent reached maximum iterations without completing the task.";
                iterations := 10;
                providerId := provider_id (cfg_provider config) |}.
Proof.
  unfold run.
  destruct (loop _ _ _ _ _) as [o st'] eqn:Hrun. cbn [fst snd].
  intros Hfinal Hhandled.
  by rewrite (loop_exhausts _ _ _ _ _ _ _ (rs_awaits st') Hrun eq_refl Hfinal Hhandled).
Qed.

(** C1. Whatever the backend answers and the tools do, and whether the
    loop returns, throws or loses the race against the timer, the outcome
    that a run of the sub-agent returns has [iterations] at most 10, the
    turn cap.  A run returns an outcome in every case but one: when the loop
    throws, before the timer fires, something whose message cannot be read,
    the run throws as well. *)
Theorem iterations_bounded (config : SubAgentConfig) (w : World) :
  (∀ result,
     (runSubAgent config w).1 = Returned result → (iterations result ≤ 10)%nat)
  ∧ ((∃ result, (runSubAgent config w).1 = Returned result)
     ∨ (∃ err e,
          pending_at_deadline config w = None
          ∧ (unguarded config w).1 = Thrown err
          ∧ err_message err = Thrown e
          ∧ (runSubAgent config w).1 = Thrown e))
  ∧ SUB_AGENT_MAX_ITERATIONS = 10%nat.
Proof.
  split; [|split; [|done]].
  all: destruct (runSubAgent_race config w) as [Hrace _].
  all: destruct (unguarded_spec config w) as (Hlog & Hits & Hres).
  all: destruct (pending_at_deadline config w) as [a|] eqn:Hpending.
  - (* the timer fired while [a] was pending *)
    intros result. rewrite Hrace. intros [= <-]. cbn [iterations].
    apply first_late_some in Hpending as [Hin _].
    rewrite Forall_forall in Hlog. apply Hlog in Hin as (Hits' & Hrange & _). lia.
  - intros result. rewrite Hrace.
    destruct ((unguarded config w).1) as [r|err] eqn:Hsettled.
    + (* the loop returned *)
      intros [= <-]. destruct (Hres r eq_refl) as [-> _]. lia.
    + (* the loop threw *)
      destruct (err_message err) as [message|e]; [|done].
      intros [= <-]. cbn [iterations]. lia.
  - left. by eexists.
  - destruct ((unguarded config w).1) as [r|err] eqn:Hsettled.
    + left. by exists r.
    + destruct (err_message err) as [message|e] eqn:Hmessage.
      * left. by eexists.
      * right. by exists err, e.
Qed.


(** ** Terminal and non-terminal turns *)

(** A pass answered by a final text, with the state it leaves. *)
Lemma final_text_state (provider : Provider) (tools : list Tool)
    (remaining i : nat) (st : RunState) (resp : LLMResponse) (w' : World) :
  provider_chat provider (rs_messages st) tools (rs_world st) = (Returned resp, w') →
  resp_type resp = TypeText →
  (extractToolCallFromText (default "" (resp_content resp)) w').1 = Returned None →
  loop provider tools (S remaining) i st =
    (Returned {| success := true;
                 response := default "" (resp_content resp);
                 iterations := i + 1;
                 providerId := provider_id provider |},
     {| rs_world := (extractToolCallFromText (default "" (resp_content resp)) w').2;
        rs_messages := rs_messages st; rs_i := i;
        rs_iterations := i + 1;
        rs_awaits := rs_awaits st ++ [chat_await provider tools i (Returned resp) w'] |}).
Proof.
  intros Hchat Htype Hext. cbn [loop].
  unfold bind, begin_pass, get_messages, await, sync. run_projections_goal.
  rewrite Hchat, Htype. run_projections_goal.
  destruct (extractToolCallFromText (default "" (resp_content resp)) w')
    as [found w''].
  cbn [fst snd] in Hext |- *. by subst found.
Qed.


(** "Not found" leaves the world as it was. *)
Lemma extract_none_world (text : string) (w : World) :
  (extractToolCallFromText text w).1 = Returned None →
  (extractToolCallFromText text w).2 = w.
Proof.
  unfold extractToolCallFromText.
  destruct (String.eqb text ""); [done|].
  destruct (indexOf "{" text) as [s|]; [|done].
  destruct (lastIndexOf "}" text) as [e|]; [|done].
  destruct (e <=? s)%nat; [done|].
  destruct (JSON_parse _) as [parsed|]; [|done].
  destruct (negb (js_truthy parsed) || negb (js_typeof_object parsed)); [done|].
  cbn zeta. destruct (match List.find _ _ with Some _ => _ | None => _ end); [|done].
  destruct (String.eqb _ ""); [done|].
  by destruct (randomUUID w).
Qed.

(** The run whose first chat is answered by a final text before the
    deadline, with the state it leaves. *)
Lemma first_turn_text_run (config : SubAgentConfig) (w : World)
    (resp : LLMResponse) (w' : World) :
  provider_chat (cfg_provider config) (rs_messages (initial_state config w))
    (cfg_tools config) w = (Returned resp, w') →
  resp_type resp = TypeText →
  (extractToolCallFromText (default "" (resp_content resp)) w').1 = Returned None →
  clock w' < deadline_of config w →
  runSubAgent config w =
    (Returned {| success := true;
                 response := default "" (resp_content resp);
                 iterations := 1;
                 providerId := provider_id (cfg_provider config) |},
     {| rs_world := w';
        rs_messages := rs_messages (initial_state config w);
        rs_i := 0; rs_iterations := 1;
        rs_awaits :=
          [chat_await (cfg_provider config) (cfg_tools config) 0 (Returned resp) w'] |}).
Proof.
  intros Hchat Htype Hext Hclock.
  pose proof (final_text_state (cfg_provider config) (cfg_tools config) 9 0
                (initial_state config w) resp w' Hchat Htype Hext) as Hloop.
  rewrite (extract_none_world _ _ Hext) in Hloop.
  unfold runSubAgent, run. change SUB_AGENT_MAX_ITERATIONS with 10%nat.
  rewrite Hloop. unfold race, first_late, timer_first.
  cbn [initial_state rs_awaits app List.find chat_await aw_settled].
  destruct (Z.ltb_spec (deadline_of config w) (clock w')); [lia|].
  by destruct (Z.eqb_spec (deadline_of config w) (clock w')); [lia|].
Qed.

(** X21. When every chat of a run is answered with native tool calls, and
    no tool rejects with something whose message cannot be read, the loop
    makes its ten chats and returns [success = false], [iterations = 10] and
    the fixed message; the guarded run returns this outcome when no awaited
    call is still pending as the timer fires. *)
Theorem tool_calls_exhaust_cap (config : SubAgentConfig) (w : World) :
  Forall answered_with_tool_calls (rs_awaits (unguarded config w).2) →
  Forall tool_handled (rs_awaits (unguarded config w).2) →
  let exhausted :=
    {| success := false;
       response := "Sub-agent reached maximum iterations without completing the task.";
       iterations := 10;
       providerId := provider_id (cfg_provider config) |} in
  (unguarded config w).1 = Returned exhausted
  ∧ chats (rs_awaits (unguarded config w).2) = 10%nat
  ∧ (pending_at_deadline config w = None →
     (runSubAgent config w).1 = Returned exhausted).
Proof.
  intros Hcalls Hhandled exhausted.
  assert ((unguarded config w).1 = Returned exhausted) as Hsettled.
  { apply unguarded_exhausts; [|done].
    eapply Forall_impl; [exact Hcalls|].
    intros a. unfold answered_with_tool_calls, not_final.
    destruct (aw_call a); [done|done| |done].
    intros (resp & Hanswer & Htype). exists resp. split; [done|]. by left. }
  split; [exact Hsettled|]. split.
  - destruct (unguarded_chats config w) as [_ ->].
    destruct (unguarded_spec config w) as (_ & _ & Hres).
    by destruct (Hres _ Hsettled) as [<- _].
  - intros Hpending.
    destruct (runSubAgent_race config w) as [-> _].
    by rewrite Hpending, Hsettled.
Qed.

(** ** Further properties of the loop and its guard *)

(** X6. The history of a run is append-only and keeps its shape: it begins
    with the two seed messages (the system prompt for the role, then the task
    verbatim as the user's message), and all that follows are exchanges, each
    an assistant message (carrying at most one call) directly followed by
    the tool-result message for it, under the id of the call when the
    assistant message carries one.  Nothing else is ever appended, and
    nothing is removed or rewritten. *)
Theorem history_is_append_only (config : SubAgentConfig) (w : World) :
  ∃ added,
    rs_messages (runSubAgent config w).2 =
      {| msg_role := RoleSystem; msg_content := systemPrompt (cfg_role config);
         msg_toolCalls := None; msg_toolCallId := None |}
      :: {| msg_role := RoleUser; msg_content := cfg_task config;
            msg_toolCalls := None; msg_toolCallId := None |}
      :: added
    ∧ exchanges added.
Proof.
  destruct (runSubAgent_race config w) as [_ ->].
  destruct (unguarded_history config w) as (added & Hmsg & Hex).
  exists added. split; [exact Hmsg|exact Hex].
Qed.

(** X7. The calls of a native tool-calls answer are handled one after the
    other in the order of the list: the tools executed are, in that order,
    those called for that the granted list holds, and the history grows by
    one assistant message carrying the single call and one tool-result
    message under its id, for each call handled.  When all are handled (as
    when the list is missing or empty) the next pass begins.  The handling
    stops at the first call whose tool rejects with something whose message
    cannot be read: the executor throws on it, nothing is appended for that
    call, and the loop ends by throwing. *)
Theorem native_calls_in_order (provider : Provider) (tools : list Tool)
    (remaining i : nat) (st : RunState) (resp : LLMResponse) (w' : World) :
  provider_chat provider (rs_messages st) tools (rs_world st) = (Returned resp, w') →
  resp_type resp = TypeToolCalls →
  let calls := default [] (resp_toolCalls resp) in
  ∃ o st2 handled results new,
    loop provider tools (S remaining) i st =
      match o with
      | Returned _ => loop provider tools remaining (S i) st2
      | Thrown e => (Thrown e, st2)
      end
    ∧ List.length results = List.length handled
    ∧ rs_messages st2 =
        rs_messages st ++ native_exchanges (default "" (resp_content resp)) handled results
    ∧ rs_awaits st2 = rs_awaits st ++ chat_await provider tools i (Returned resp) w' :: new
    ∧ match o with
      | Returned tt =>
          handled = calls
          ∧ aw_call <$> new = CallTool <$> granted_names tools (tc_name <$> calls)
          ∧ Forall tool_handled new
      | Thrown e =>
          (∃ tc rest, calls = handled ++ tc :: rest
             ∧ aw_call <$> new =
                 CallTool <$> granted_names tools (tc_name <$> handled ++ [tc]))
          ∧ ∃ earlier a err,
              new = earlier ++ [a] ∧ Forall tool_handled earlier
              ∧ aw_result a = Thrown err ∧ err_message err = Thrown e
      end.
Proof.
  intros Hchat Htype calls. cbn [loop].
  unfold bind at 1. unfold bind at 1. unfold bind at 1.
  unfold begin_pass, get_messages, await. run_projections_goal.
  rewrite Hchat, Htype. subst calls. cbn [settled_as].
  destruct (resp_toolCalls resp) as [[|tc0 calls]|];
    try (exists (Returned tt); eexists _, [], [], []; split; [reflexivity|];
         run_projections_goal; by rewrite app_nil_r).
  unfold bind at 1.
  match goal with |- context [for_each ?l ?body ?s] =>
    destruct (native_calls_processed tools (default "" (resp_content resp)) l s)
      as (o & st3 & handled & results & new & Heach & Hlen & Hmsg & _ & Hnew & _ & Hout);
    change (for_each l body s = (o, st3)) in Heach
  end.
  rewrite Heach. run_projections Hmsg. run_projections Hnew.
  exists o, st3, handled, results, new.
  split; [by destruct o|]. split; [exact Hlen|]. split; [exact Hmsg|].
  split; [by rewrite Hnew, <- app_assoc|].
  by destruct o as [[]|e].
Qed.

(** X8. A text answer with a tool call spelled in it does not end the loop:
    the call is executed in the world left by the extraction, with the
    arguments recovered, and the history grows by the assistant's raw text
    and by the tool-result message under the id of the call, whose content
    is what the tool returned, the text describing its failure when it threw
    something with a message, or the text naming it when no granted tool
    bears the name; then the next pass begins.  Only when the tool rejects
    with something whose message cannot be read does the executor throw, and
    the loop with it, the history left as it was. *)
Theorem text_tool_call_continues (provider : Provider) (tools : list Tool)
    (remaining i : nat) (st : RunState) (resp : LLMResponse) (w' w'' : World)
    (toolCall : ToolCall) :
  provider_chat provider (rs_messages st) tools (rs_world st) = (Returned resp, w') →
  resp_type resp = TypeText →
  extractToolCallFromText (default "" (resp_content resp)) w'
    = (Returned (Some toolCall), w'') →
  let found :=
    List.find (fun t => String.eqb (tool_name t) (tc_name toolCall)) tools in
  let settled :=
    match found with
    | None =>
        (Returned ("Error: Tool " +:+ dquote +:+ tc_name toolCall +:+ dquote
                   +:+ " not found"), w'')
    | Some tool =>
        (match (tool_execute tool (tc_arguments toolCall) w'').1 with
         | Returned text => Returned text
         | Thrown err =>
             match err_message err with
             | Returned message => Returned ("Error: " +:+ message)
             | Thrown e => Thrown e
             end
         end,
         (tool_execute tool (tc_arguments toolCall) w'').2)
    end in
  ∃ st2,
    rs_world st2 = settled.2
    ∧ match settled.1 with
      | Returned result =>
          loop provider tools (S remaining) i st = loop provider tools remaining (S i) st2
          ∧ rs_messages st2 =
              rs_messages st ++ [ assistant_text (default "" (resp_content resp));
                                  tool_result result (tc_id toolCall) ]
      | Thrown e =>
          loop provider tools (S remaining) i st = (Thrown e, st2)
          ∧ rs_messages st2 = rs_messages st
      end.
Proof.
  intros Hchat Htype Hext found settled. cbn [loop].
  unfold bind, begin_pass, get_messages, await, sync. run_projections_goal.
  rewrite Hchat, Htype. run_projections_goal. rewrite Hext.
  subst settled found.
  destruct (List.find (fun t => String.eqb (tool_name t) (tc_name toolCall)) tools)
    as [tool|] eqn:Hfind.
  - rewrite (executeToolCall_found toolCall tools _ tool Hfind). run_projections_goal.
    cbn [fst snd].
    destruct ((tool_execute tool (tc_arguments toolCall) w'').1) as [text|err].
    + unfold push. run_projections_goal. eexists. split; [|split; [reflexivity|]].
      * done.
      * run_projections_goal. by rewrite <- app_assoc.
    + destruct (err_message err) as [message|e].
      * unfold push. run_projections_goal. eexists. split; [|split; [reflexivity|]].
        -- done.
        -- run_projections_goal. by rewrite <- app_assoc.
      * eexists. split; [|split; [reflexivity|]]; done.
  - rewrite executeToolCall_missing by (by apply find_tool_none).
    unfold push. run_projections_goal. cbn [fst snd].
    eexists. split; [|split; [reflexivity|]].
    + done.
    + run_projections_goal. by rewrite <- app_assoc.
Qed.

(** X9. A text answer without content, missing or empty, is a final answer:
    the loop ends with [success = true] and the empty response. *)
Theorem empty_text_is_final (provider : Provider) (tools : list Tool)
    (remaining i : nat) (st : RunState) (resp : LLMResponse) (w' : World) :
  provider_chat provider (rs_messages st) tools (rs_world st) = (Returned resp, w') →
  resp_type resp = TypeText →
  resp_content resp = None ∨ resp_content resp = Some "" →
  loop provider tools (S remaining) i st =
    (Returned {| success := true; response := ""; iterations := i + 1;
                 providerId := provider_id provider |},
     {| rs_world := w'; rs_messages := rs_messages st; rs_i := i;
        rs_iterations := i + 1;
        rs_awaits := rs_awaits st ++ [chat_await provider tools i (Returned resp) w'] |}).
Proof.
  intros Hchat Htype Hcontent. cbn [loop].
  unfold bind, begin_pass, get_messages, await, sync. run_projections_goal.
  rewrite Hchat, Htype. run_projections_goal.
  by destruct Hcontent as [->| ->].
Qed.

(** X10. [iterations] counts the chats: the outcome that a run returns
    reports at least one iteration and never more than the number of chats
    the run makes with its backend, which is at most ten; and when the timer
    does not fire the two are equal. *)
Theorem iterations_count_chats (config : SubAgentConfig) (w : World) :
  (chats (rs_awaits (runSubAgent config w).2) ≤ 10)%nat
  ∧ match (runSubAgent config w).1 with
    | Returned result =>
        (1 ≤ iterations result)%nat
        ∧ (iterations result ≤ chats (rs_awaits (runSubAgent config w).2))%nat
        ∧ (pending_at_deadline config w = None →
           iterations result = chats (rs_awaits (runSubAgent config w).2))
    | Thrown _ => pending_at_deadline config w = None
    end.
Proof.
  destruct (runSubAgent_race config w) as [-> ->].
  destruct (unguarded_spec config w) as (Hlog & Hits & Hres).
  destruct (unguarded_chats config w) as [Hnum Hcount].
  rewrite Hcount. split; [lia|].
  destruct (pending_at_deadline config w) as [a|] eqn:Hpending.
  - cbn [iterations].
    apply first_late_some in Hpending as [Hin _].
    pose proof (numbered_bound _ _ _ Hnum Hin) as Hbound.
    rewrite Forall_forall in Hlog. apply Hlog in Hin as (Htag & _).
    rewrite Hcount in Hbound. split; [lia|]. split; [lia|done].
  - destruct ((unguarded config w).1) as [r|err] eqn:Hsettled.
    + destruct (Hres r eq_refl) as [-> _]. split; [lia|]. split; [lia|done].
    + destruct (err_message err) as [message|e]; [|done].
      cbn [iterations]. split; [lia|]. split; [lia|done].
Qed.

(** X11. The outcomes that a run returns are of three shapes, all naming
    the configured backend.  A success is the final text returned by the
    loop itself, the timer not having fired.  Every other outcome has
    [success = false] and either the exhaustion message with
    [iterations = 10], or a response that begins with [Sub-agent error: ] (a
    timeout, or an exception of the loop).  A run that returns no outcome
    throws what the reading of the message of the loop's exception threw. *)
Theorem outcome_shapes (config : SubAgentConfig) (w : World) :
  match (runSubAgent config w).1 with
  | Returned result =>
      providerId result = provider_id (cfg_provider config)
      ∧ ((success result = true
          ∧ pending_at_deadline config w = None
          ∧ (unguarded config w).1 = Returned result)
         ∨ (success result = false
            ∧ response result =
                "Sub-agent reached maximum iterations without completing the task."
            ∧ iterations result = 10%nat)
         ∨ (success result = false
            ∧ ∃ message, response result = "Sub-agent error: " +:+ message))
  | Thrown e =>
      pending_at_deadline config w = None
      ∧ ∃ err, (unguarded config w).1 = Thrown err ∧ err_message err = Thrown e
  end.
Proof.
  destruct (runSubAgent_race config w) as [-> _].
  destruct (unguarded_spec config w) as (_ & _ & Hres).
  destruct (pending_at_deadline config w) as [a|] eqn:Hpending.
  - split; [done|]. right. right. split; [done|]. by eexists.
  - destruct ((unguarded config w).1) as [r|err] eqn:Hsettled.
    + destruct (Hres r eq_refl) as [_ Hid]. split; [exact Hid|].
      destruct (success r) eqn:Hsuccess; [by left|].
      right. left. split; [done|]. by apply (unguarded_failure config w).
    + destruct (err_message err) as [message|e] eqn:Hmessage.
      * split; [done|]. right. right. split; [done|]. by eexists.
      * split; [done|]. by exists err.
Qed.

(** ** The timeout *)

Lemma timer_delay_mono (shorter longer : Z) :
  shorter ≤ longer → longer ≤ 2147483647 → timer_delay shorter ≤ timer_delay longer.
Proof.
  intros Hle Hmax. unfold timer_delay.
  destruct (Z.leb_spec 1 shorter), (Z.leb_spec shorter 2147483647),
    (Z.leb_spec 1 longer), (Z.leb_spec longer 2147483647); simpl; lia.
Qed.

(** X12. A longer timeout never changes a run that met its deadline: when
    the timer does not fire, the run with any timeout at least as long, up
    to the 2^31 - 1 ms that a timer can hold (the default is 60 s), gives
    the same outcome and leaves the same state. *)
Theorem longer_timeout_same_run (config : SubAgentConfig) (w : World) (longer : Z) :
  pending_at_deadline config w = None →
  default SUB_AGENT_TIMEOUT_MS (cfg_timeout config) ≤ longer →
  longer ≤ 2147483647 →
  runSubAgent (with_timeout config longer) w = runSubAgent config w.
Proof.
  intros Hnone Hle Hmax. unfold runSubAgent.
  change (initial_state (with_timeout config longer) w) with (initial_state config w).
  cbn [with_timeout cfg_provider cfg_tools cfg_timeout from_option id].
  destruct (run (cfg_provider config) (cfg_tools config) (initial_state config w))
    as [settled st].
  cbn [snd] in Hnone. unfold race. rewrite Hnone.
  assert (first_late (clock w + timer_delay longer) (rs_awaits st) = None) as ->;
    [|done].
  eapply first_late_later; [|exact Hnone].
  pose proof (timer_delay_mono _ _ Hle Hmax). lia.
Qed.

(** X18. A run none of whose chats is answered by a final text, the backend
    asking for tools on every turn whether natively or by a call spelled in
    its text, and none of whose tools rejects with something whose message
    cannot be read, is cut off after ten chats: the loop returns
    [success = false], [iterations = 10] and the fixed message, and so does
    the guarded run when the timer does not fire. *)
Theorem never_final_exhausts (config : SubAgentConfig) (w : World) :
  Forall not_final (rs_awaits (unguarded config w).2) →
  Forall tool_handled (rs_awaits (unguarded config w).2) →
  let exhausted :=
    {| success := false;
       response := "Sub-agent reached maximum iterations without completing the task.";
       iterations := 10;
       providerId := provider_id (cfg_provider config) |} in
  (unguarded config w).1 = Returned exhausted
  ∧ chats (rs_awaits (unguarded config w).2) = 10%nat
  ∧ (pending_at_deadline config w = None →
     (runSubAgent config w).1 = Returned exhausted).
Proof.
  intros Hfinal Hhandled exhausted.
  pose proof (unguarded_exhausts config w Hfinal Hhandled) as Hsettled.
  split; [exact Hsettled|]. split.
  - destruct (unguarded_chats config w) as [_ ->].
    destruct (unguarded_spec config w) as (_ & _ & Hres).
    by destruct (Hres _ Hsettled) as [<- _].
  - intros Hpending.
    destruct (runSubAgent_race config w) as [-> _].
    by rewrite Hpending, Hsettled.
Qed.

(** ** The tool executor *)

(** X19. The executor, case by case.  A call of a name that no granted tool
    bears returns the text naming the missing tool, and nothing is executed
    or logged.  Otherwise the first granted tool of that name is executed on
    the arguments of the call: what it returns is returned; when it throws
    something whose message can be read, the text [Error: ] followed by that
    message is returned; and when the message cannot be read ([null] or
    [undefined] was thrown) the executor throws the [TypeError] of that
    reading.  Hence every tool execution in the log of a run is that of a
    tool of the granted list. *)
Theorem executor_outcome (toolCall : ToolCall) (tools : list Tool) (st : RunState) :
  (tc_name toolCall ∉ tool_name <$> tools →
     executeToolCall toolCall tools st =
       (Returned ("Error: Tool " +:+ dquote +:+ tc_name toolCall +:+ dquote
                  +:+ " not found"), st))
  ∧ (∀ tool,
       List.find (fun t => String.eqb (tool_name t) (tc_name toolCall)) tools = Some tool →
       let settled := tool_execute tool (tc_arguments toolCall) (rs_world st) in
       (executeToolCall toolCall tools st).1 =
         match settled.1 with
         | Returned text => Returned text
         | Thrown err =>
             match err_message err with
             | Returned message => Returned ("Error: " +:+ message)
             | Thrown e => Thrown e
             end
         end
       ∧ (settled.1 = Thrown (ThrownValue VUndefined) →
          (executeToolCall toolCall tools st).1 =
            Thrown (TypeError "Cannot read properties of undefined (reading 'message')"))
       ∧ rs_world (executeToolCall toolCall tools st).2 = settled.2
       ∧ rs_messages (executeToolCall toolCall tools st).2 = rs_messages st
       ∧ aw_call <$> rs_awaits (executeToolCall toolCall tools st).2 =
           (aw_call <$> rs_awaits st) ++ [CallTool (tc_name toolCall)])
  ∧ (∀ config w name,
       CallTool name ∈ aw_call <$> rs_awaits (runSubAgent config w).2 →
       name ∈ tool_name <$> cfg_tools config).
Proof.
  split; [apply executeToolCall_missing|]. split.
  - intros tool Hfind settled.
    rewrite (executeToolCall_found toolCall tools st tool Hfind). cbn [fst snd].
    fold settled. run_projections_goal.
    apply find_tool_some in Hfind as [_ Hname].
    split; [done|]. split; [by intros ->|]. split; [done|]. split; [done|].
    by rewrite fmap_app, Hname.
  - intros config w name (a & Hcall & Hin)%list_elem_of_fmap.
    destruct (runSubAgent_race config w) as [_ Hstate]. rewrite Hstate in Hin.
    destruct (unguarded_spec config w) as (Hall & _).
    rewrite Forall_forall in Hall. apply Hall in Hin as (_ & _ & Hexpected).
    by rewrite <- Hcall in Hexpected.
Qed.

(** ** Argument-name normalization *)

(** X1. Normalization only ever adds: every argument keeps its value, no key
    other than [filename] appears, and [filename] is present afterwards
    exactly when one of [filename], [file_path], [path] was present
    before. *)
Theorem normalize_keeps_arguments (args : JsRecord) :
  (∀ k v, args !! k = Some v → normalizeToolArguments args !! k = Some v)
  ∧ (∀ k, k ≠ "filename" → normalizeToolArguments args !! k = args !! k)
  ∧ (is_Some (normalizeToolArguments args !! "filename") ↔
     is_Some (args !! "filename") ∨ is_Some (args !! "file_path")
     ∨ is_Some (args !! "path")).
Proof.
  split; [|split].
  - intros k v Hk. destruct (decide (k = "filename")) as [->|Hne].
    + by rewrite normalize_filename, Hk.
    + by rewrite normalize_other.
  - apply normalize_other.
  - rewrite normalize_filename.
    destruct (args !! "filename") as [x|]; [naive_solver|].
    destruct (args !! "file_path") as [y|]; [naive_solver|].
    split; [naive_solver|]. intros [[? [=]]|[[? [=]]|?]]. done.
Qed.

(** X2. Normalizing twice is normalizing once. *)
Theorem normalize_idempotent (args : JsRecord) :
  normalizeToolArguments (normalizeToolArguments args) = normalizeToolArguments args.
Proof.
  apply normalize_id.
  destruct (normalizeToolArguments args !! "filename") as [x|] eqn:Hf; [by left; eexists|].
  right. rewrite !normalize_other by done.
  rewrite normalize_filename in Hf.
  destruct (args !! "filename"); [done|].
  by destruct (args !! "file_path").
Qed.

(** ** Tool-call extraction *)

(** No tool call is found when the last closing brace, if any, does not come
    after the first opening one, if any. *)
Lemma extract_unordered (text : string) (w : World) :
  (∀ s e, indexOf "{" text = Some s → lastIndexOf "}" text = Some e → (e ≤ s)%nat) →
  extractToolCallFromText text w = (Returned None, w).
Proof.
  intros Horder. unfold extractToolCallFromText.
  destruct (String.eqb text ""); [done|].
  destruct (indexOf "{" text) as [s|]; [|done].
  destruct (lastIndexOf "}" text) as [e|]; [|done].
  specialize (Horder s e eq_refl eq_refl).
  by destruct (Nat.leb_spec e s); [|lia].
Qed.

(** X3. What stands before the first opening brace and after the last
    closing brace plays no part: around any text, a prefix without [{] and a
    suffix without [}] (prose, trailing commentary, stray braces of the other
    kind) leave the result of the extraction as it is. *)
Theorem extract_ignores_surroundings (pre body post : string) (w : World) :
  absent "{" pre → absent "}" post →
  extractToolCallFromText (pre +:+ body +:+ post) w = extractToolCallFromText body w.
Proof.
  intros Hpre%indexOf_None Hpost%lastIndexOf_None.
  pose proof (indexOf_app "{" pre (body +:+ post)) as Hfirst.
  rewrite Hpre, (indexOf_app _ body post) in Hfirst.
  pose proof (lastIndexOf_app "}" pre (body +:+ post)) as Hlast.
  rewrite (lastIndexOf_app "}" body post), Hpost in Hlast.
  destruct (indexOf "{" body) as [s|] eqn:Hs.
  2:{ (* the only opening braces are in the suffix *)
      rewrite (extract_unordered body w) by (intros; congruence).
      apply extract_unordered. intros s' e' H1 H2.
      rewrite Hfirst in H1. rewrite Hlast in H2.
      destruct (indexOf "{" post) as [k|]; [|done]. injection H1 as <-.
      destruct (lastIndexOf "}" body) as [n|] eqn:Hn.
      - apply lastIndexOf_bound in Hn. injection H2 as <-. lia.
      - apply lastIndexOf_bound in H2. lia. }
  destruct (lastIndexOf "}" body) as [e|] eqn:He.
  2:{ (* the only closing braces are in the prefix *)
      rewrite (extract_unordered body w) by (intros; congruence).
      apply extract_unordered. intros s' e' H1 H2.
      rewrite Hfirst in H1. injection H1 as <-.
      rewrite Hlast in H2. apply lastIndexOf_bound in H2. lia. }
  destruct (decide (s < e)%nat) as [Hlt|Hge].
  - rewrite (extract_braces (pre +:+ body +:+ post) w
               (String.length pre + s) (String.length pre + e))
      by (try apply indexOf_Some; try apply lastIndexOf_Some; done || lia).
    rewrite (extract_braces body w s e)
      by (try apply indexOf_Some; try apply lastIndexOf_Some; done || lia).
    assert (slice (String.length pre + s) (String.length pre + e + 1)
              (pre +:+ body +:+ post) = slice s (e + 1) body) as ->; [|done].
    unfold slice.
    replace (String.length pre + e + 1 - (String.length pre + s))%nat
      with (e + 1 - s)%nat by lia.
    rewrite substring_app_skip. apply substring_app_keep.
    apply lastIndexOf_bound in He. lia.
  - rewrite (extract_unordered body w) by (intros; simplify_eq; lia).
    apply extract_unordered. intros s' e' H1 H2.
    rewrite Hfirst in H1. rewrite Hlast in H2. simplify_eq/=. lia.
Qed.

(** The call found when the first alias key that the object has carries a
    value that prints as a name. *)
Lemma extract_found (text : string) (w : World) (s e : nat) (props : JsRecord)
    (key : string) (v : JsValue) (name : string) :
  first_at "{" text s → last_at "}" text e → (s < e)%nat →
  JSON_parse (slice s (e + 1) text) = Some (VObj props) →
  resolves_alias props key v →
  js_String v = Returned name →
  name ≠ "" →
  extractToolCallFromText text w =
    (Returned
       (Some {| tc_id := (randomUUID w).1;
                tc_name := name;
                tc_arguments :=
                  normalizeToolArguments
                    (delete "name" (delete "tool" (delete "action" props))) |}),
     (randomUUID w).2).
Proof.
  intros Hs He Hlt Hparse Halias Hprint Hname.
  destruct (find_alias_some props key v Halias) as [Hfind Hget].
  rewrite (extract_braces text w s e), Hparse, Hfind, Hget, Hprint by done.
  by destruct (String.eqb_spec name "").
Qed.

(** X4. A text yields a tool call exactly when its last [}] comes after its
    first [{], the slice between them parses to an object, and the first of
    [action], [tool], [name] that the object has carries a value that can be
    printed and does not print as the empty text.  Whether a call is found
    does not depend on the world. *)
Theorem extraction_succeeds_iff (text : string) (w : World) :
  (∃ toolCall w', extractToolCallFromText text w = (Returned (Some toolCall), w')) ↔
  ∃ s e props key v name,
    first_at "{" text s ∧ last_at "}" text e ∧ (s < e)%nat
    ∧ JSON_parse (slice s (e + 1) text) = Some (VObj props)
    ∧ resolves_alias props key v ∧ js_String v = Returned name ∧ name ≠ "".
Proof.
  split.
  - intros (toolCall & w' & Hsome). by eapply extract_some_inv.
  - intros (s & e & props & key & v & name & Hs & He & Hlt & Hparse & Halias
            & Hprint & Hname).
    eexists _, _. by eapply extract_found.
Qed.

(** X5. The first alias key that the object has settles the name, also when
    its value prints as the empty text (an empty string, an empty list, a
    list holding only [null]): then no tool call is found, whatever the later
    alias keys carry, and no UUID is drawn. *)
Theorem empty_name_is_not_found (text : string) (w : World) (s e : nat)
    (props : JsRecord) (key : string) (v : JsValue) :
  first_at "{" text s → last_at "}" text e → (s < e)%nat →
  JSON_parse (slice s (e + 1) text) = Some (VObj props) →
  resolves_alias props key v →
  js_String v = Returned "" →
  extractToolCallFromText text w = (Returned None, w).
Proof.
  intros Hs He Hlt Hparse Halias Hname.
  destruct (find_alias_some props key v Halias) as [Hfind Hget].
  by rewrite (extract_braces text w s e), Hparse, Hfind, Hget, Hname by done.
Qed.

(** ** The capability filter *)

Lemma js_strings_spec (l : list JsValue) (name : string) :
  name ∈ js_strings l ↔ VStr name ∈ l.
Proof.
  induction l as [|v rest IH]; simpl.
  - by rewrite !elem_of_nil.
  - destruct v; rewrite ?elem_of_cons, IH; naive_solver.
Qed.

Lemma subAgentTools_names (allTools : list Tool) (allowed : gset string) (name : string) :
  name ∈ tool_name <$> subAgentTools allTools allowed ↔
  name ∈ allowed ∧ name ∈ tool_name <$> allTools.
Proof.
  unfold subAgentTools. rewrite !list_elem_of_fmap. split.
  - intros (t & -> & [Hallowed Hin]%list_elem_of_filter). eauto.
  - intros [Hallowed (t & -> & Hin)]. exists t. split; [done|].
    by apply list_elem_of_filter.
Qed.

Lemma allowedToolNames_spec (safeToolNames : list string) (additional : list JsValue)
    (name : string) :
  name ∈ allowedToolNames safeToolNames additional ↔
  (name ∈ safeToolNames ∨ VStr name ∈ additional) ∧ name ≠ "delegate_task".
Proof.
  unfold allowedToolNames.
  rewrite elem_of_difference, elem_of_list_to_set, elem_of_app, elem_of_singleton.
  by rewrite js_strings_spec.
Qed.

(** The tools selected do not change when the allowed names change outside
    the catalog. *)
Lemma subAgentTools_ext (allTools : list Tool) (allowed allowed' : gset string) :
  (∀ name, name ∈ tool_name <$> allTools → name ∈ allowed ↔ name ∈ allowed') →
  subAgentTools allTools allowed = subAgentTools allTools allowed'.
Proof.
  intros Hsame. unfold subAgentTools.
  induction allTools as [|t rest IH]; [done|].
  rewrite !filter_cons.
  rewrite IH by (intros name Hin; apply Hsame; rewrite fmap_cons; set_solver).
  assert (tool_name t ∈ allowed ↔ tool_name t ∈ allowed') as Ht
    by (apply Hsame; rewrite fmap_cons; set_solver).
  by repeat case_decide; try tauto.
Qed.

(** ** The entry point *)

Lemma truthy_trimmed (s : string) :
  js_truthy (VStr (trim s)) = negb (blank s).
Proof.
  simpl. f_equal. destruct (String.eqb_spec (trim s) "") as [Heq|Hne].
  - symmetry. by apply trim_empty.
  - destruct (blank s) eqn:Hb; [|done]. by apply trim_empty in Hb.
Qed.

Lemma execute_blank_task (config : DelegationToolConfig) (args : JsRecord) (w : World) :
  missing_or_blank (args !! "task") = true →
  execute config args w = (Returned "Error: task must be a non-empty string.", (w, [])).
Proof.
  intros Hblank. unfold execute.
  destruct (args !! "task") as [[| |b|r|s|items|props]|]; try done.
  cbn [from_option id optional_trim]. rewrite truthy_trimmed.
  cbn [missing_or_blank] in Hblank. by rewrite Hblank.
Qed.

Lemma execute_blank_role (config : DelegationToolConfig) (args : JsRecord) (w : World) :
  text_or_missing (args !! "task") = true →
  missing_or_blank (args !! "task") = false →
  missing_or_blank (args !! "role") = true →
  execute config args w = (Returned "Error: role must be a non-empty string.", (w, [])).
Proof.
  intros Htyped Htask Hrole. unfold execute.
  destruct (args !! "task") as [[| |b|r|s|items|props]|]; try done.
  cbn [from_option id optional_trim]. rewrite truthy_trimmed.
  cbn [missing_or_blank] in Htask. rewrite Htask. cbn [negb].
  destruct (args !! "role") as [[| |b|r|s'|items|props]|]; try done.
  cbn [from_option id optional_trim]. rewrite truthy_trimmed.
  cbn [missing_or_blank] in Hrole. by rewrite Hrole.
Qed.

(** [execute] once both texts have passed validation. *)
Lemma execute_valid (config : DelegationToolConfig) (args : JsRecord) (w : World) :
  text_or_missing (args !! "task") = true →
  missing_or_blank (args !! "task") = false →
  text_or_missing (args !! "role") = true →
  missing_or_blank (args !! "role") = false →
  execute config args w =
    let role := text_of (default VUndefined (args !! "role")) in
    let task := text_of (default VUndefined (args !! "task")) in
    let '(resolved, w1, call) :=
      resolveProvider (orchestrator config) (default VUndefined (args !! "tier")) task w in
    match resolved with
    | Thrown err =>
        (match err_message err with
         | Returned message => Returned ("Error resolving provider: " +:+ message)
         | Thrown e => Thrown e
         end, (w1, [call]))
    | Returned provider =>
        match spread "additionalToolNames"
                (js_or (default VUndefined (args !! "tools")) (VArr [])) with
        | Thrown e => (Thrown e, (w1, [call]))
        | Returned _ =>
            let run := runSubAgent (sub_agent_of config args provider) w1 in
            (match run.1 with
             | Returned result => Returned (format_result role result)
             | Thrown e => Thrown e
             end,
             (rs_world run.2, call :: (aw_call <$> rs_awaits run.2)))
        end
    end.
Proof.
  intros Htask Htask' Hrole Hrole'. unfold execute, sub_agent_of, additional_of.
  destruct (args !! "task") as [[| |b|r|s|items|props]|]; try done.
  destruct (args !! "role") as [[| |b|r|s'|items|props]|]; try done.
  cbn [from_option id optional_trim]. rewrite !truthy_trimmed.
  simpl in Htask', Hrole'. rewrite Htask', Hrole'. cbn [negb]. cbn zeta.
  destruct (resolveProvider _ _ _ _) as [[[provider|err] w1] call].
  2:{ by destruct (err_message err). }
  destruct (spread _ _) as [additional|e]; [|done].
  destruct (runSubAgent _ w1) as [[result|e] st]; done.
Qed.

Lemma spread_well_typed (args : JsRecord) :
  iterable_or_falsy (args !! "tools") = true →
  spread "additionalToolNames" (js_or (default VUndefined (args !! "tools")) (VArr []))
  = Returned (additional_of args).
Proof.
  intros Htools. unfold additional_of.
  destruct (spread _ _) as [l|e] eqn:Hspread; [done|]. exfalso.
  unfold js_or in Hspread.
  destruct (args !! "tools") as [[| |b|r|s|items|props]|];
    cbn [from_option id iterable_or_falsy] in *; try done.
  all: try (rewrite negb_true_iff in Htools; rewrite Htools in Hspread; done).
  by destruct (js_truthy (VStr s)).
Qed.

(** Before both texts have passed validation nothing is called. *)
Lemma execute_cases (config : DelegationToolConfig) (args : JsRecord) (w : World) :
  (execute config args w).2 = (w, [])
  ∨ (text_or_missing (args !! "task") = true
     ∧ missing_or_blank (args !! "task") = false
     ∧ text_or_missing (args !! "role") = true
     ∧ missing_or_blank (args !! "role") = false).
Proof.
  destruct (missing_or_blank (args !! "task")) eqn:Htask.
  { left. by rewrite execute_blank_task. }
  destruct (text_or_missing (args !! "task")) eqn:Htask'.
  2:{ left. unfold execute.
      by destruct (args !! "task") as [[| |b|r|s|items|props]|]. }
  destruct (missing_or_blank (args !! "role")) eqn:Hrole.
  { left. by rewrite execute_blank_role. }
  destruct (text_or_missing (args !! "role")) eqn:Hrole'; [by right|].
  left. unfold execute.
  destruct (args !! "task") as [[| |b|r|s|items|props]|]; try done.
  cbn [from_option id optional_trim]. rewrite truthy_trimmed.
  simpl in Htask. rewrite Htask. cbn [negb].
  by destruct (args !! "role") as [[| |b|r|s'|items|props]|].
Qed.

(** The calls of an invocation: one to resolve the provider, then chats
    that hand the backend the granted tools, and executions of granted
    tools. *)
Lemma execute_calls (config : DelegationToolConfig) (args : JsRecord) (w : World)
    (call : Call) :
  call ∈ (execute config args w).2.2 →
  match call with
  | CallChat _ names =>
      ∃ provider, names = tool_name <$> cfg_tools (sub_agent_of config args provider)
  | CallTool name =>
      ∃ provider, name ∈ tool_name <$> cfg_tools (sub_agent_of config args provider)
  | _ => True
  end.
Proof.
  destruct (execute_cases config args w) as [->|(Ht & Ht' & Hr & Hr')].
  { by intros ?%elem_of_nil. }
  rewrite execute_valid by done. cbn zeta.
  destruct (resolveProvider _ _ _ w) as [[resolved w1] call0] eqn:Hresolve.
  assert (match call0 with
          | CallGetForTier _ | CallRouteWithHealth _ => True
          | _ => False
          end) as Hkind.
  { unfold resolveProvider in Hresolve.
    destruct (js_truthy _); by injection Hresolve as _ <-. }
  destruct resolved as [provider|err].
  2:{ cbn [snd]. intros ->%list_elem_of_singleton. by destruct call0. }
  destruct (spread _ _) as [additional|e].
  2:{ cbn [snd]. intros ->%list_elem_of_singleton. by destruct call0. }
  cbn [snd]. rewrite elem_of_cons.
  intros [->|(a & -> & Hin)%list_elem_of_fmap]; [by destruct call0|].
  destruct (runSubAgent_race (sub_agent_of config args provider) w1) as [_ Hstate].
  rewrite Hstate in Hin.
  destruct (unguarded_spec (sub_agent_of config args provider) w1) as (Hall & _).
  rewrite Forall_forall in Hall. apply Hall in Hin as (_ & _ & Hexpected).
  destruct (aw_call a); try done; exists provider; [by destruct Hexpected | done].
Qed.

(** C2. In every invocation of the entry point, whatever its arguments, the
    tools granted to the sub-agent are those of the catalog, in its order,
    whose name is among the default safe names or among the caller's
    additions (the members of the list [tools], none when it is missing) and
    is not [delegate_task]: the union of the two sets with [delegate_task]
    removed.  Each chat of the invocation hands the backend exactly these
    tools, each tool executed is one of them, and so no tool named
    [delegate_task] is ever offered or executed, also when the caller asks
    for it by name. *)
Theorem delegate_task_never_granted (config : DelegationToolConfig) (args : JsRecord)
    (w : World) :
  let safeToolNames := default DEFAULT_SAFE_TOOLS (defaultSubAgentTools config) in
  let additional := additional_of args in
  let allowed := allowedToolNames safeToolNames additional in
  let granted := subAgentTools (allTools config) allowed in
  (∀ items, args !! "tools" = Some (VArr items) → additional = items)
  ∧ (args !! "tools" = None → additional = [])
  ∧ (∀ name, name ∈ allowed ↔
       (name ∈ safeToolNames ∨ VStr name ∈ additional) ∧ name ≠ "delegate_task")
  ∧ (∀ t, t ∈ granted ↔
       t ∈ allTools config
       ∧ (tool_name t ∈ safeToolNames ∨ VStr (tool_name t) ∈ additional)
       ∧ tool_name t ≠ "delegate_task")
  ∧ sublist granted (allTools config)
  ∧ ("delegate_task" ∉ allowed)
  ∧ ("delegate_task" ∉ tool_name <$> granted)
  ∧ (∀ call, call ∈ (execute config args w).2.2 →
       match call with
       | CallChat _ names => names = tool_name <$> granted ∧ "delegate_task" ∉ names
       | CallTool name => name ∈ tool_name <$> granted ∧ name ≠ "delegate_task"
       | _ => True
       end).
Proof.
  intros safeToolNames additional allowed granted.
  assert ("delegate_task" ∉ allowed) as Hnot.
  { unfold allowed. rewrite allowedToolNames_spec. tauto. }
  assert ("delegate_task" ∉ tool_name <$> granted) as Hnot'.
  { unfold granted. rewrite subAgentTools_names. tauto. }
  split; [by intros items Hitems; unfold additional, additional_of; rewrite Hitems|].
  split; [by intros Hnone; unfold additional, additional_of; rewrite Hnone|].
  split; [intros name; apply allowedToolNames_spec|].
  split.
  { intros t. unfold granted, subAgentTools.
    rewrite list_elem_of_filter. unfold allowed. rewrite allowedToolNames_spec. tauto. }
  split; [apply sublist_filter|]. split; [done|]. split; [done|].
  intros call Hcall. apply execute_calls in Hcall.
  destruct call as [tier|task|id names|name]; try done.
  - destruct Hcall as (provider & ->). done.
  - destruct Hcall as (provider & Hin). cbn [sub_agent_of cfg_tools] in Hin.
    split; [done|]. by intros ->.
Qed.

(** C10. The tools granted are drawn from the catalog, in its order: a
    requested name that no tool of the catalog bears selects nothing, raises
    nothing, and leaves the granted tools, and the whole invocation, as they
    would be without it. *)
Theorem granted_tools_within_catalog (config : DelegationToolConfig)
    (safeToolNames : list string) (additional : list JsValue) :
  let catalog := allTools config in
  let granted := subAgentTools catalog (allowedToolNames safeToolNames additional) in
  granted ⊆ catalog
  ∧ sublist granted catalog
  ∧ (∀ name, name ∈ tool_name <$> granted → name ∈ tool_name <$> catalog)
  ∧ (∀ name before after,
       name ∉ tool_name <$> catalog →
       additional = before ++ VStr name :: after →
       (name ∉ tool_name <$> granted)
       ∧ granted = subAgentTools catalog (allowedToolNames safeToolNames (before ++ after))
       ∧ (∀ args w,
            execute config (<["tools" := VArr (before ++ VStr name :: after)]> args) w
            = execute config (<["tools" := VArr (before ++ after)]> args) w))
  ∧ (∀ args w id names,
       CallChat id names ∈ (execute config args w).2.2 → names ⊆ tool_name <$> catalog).
Proof.
  intros catalog granted.
  split; [apply list_subseteq_filter|]. split; [apply sublist_filter|].
  split; [by intros name [_ ?]%subAgentTools_names|].
  assert (∀ safe name before after,
    name ∉ tool_name <$> catalog →
    subAgentTools catalog (allowedToolNames safe (before ++ VStr name :: after))
    = subAgentTools catalog (allowedToolNames safe (before ++ after))) as Hdrop.
  { intros safe name before after Hunknown. apply subAgentTools_ext.
    intros n Hn. rewrite !allowedToolNames_spec, !elem_of_app, !elem_of_cons.
    assert (n ≠ name) by (by intros ->). naive_solver. }
  split.
  - intros name before after Hunknown ->. split; [|split].
    + by intros [_ ?]%subAgentTools_names.
    + by apply Hdrop.
    + intros args w. unfold execute.
      rewrite !lookup_insert_eq, !lookup_insert_ne by done.
      cbn [from_option id js_or js_truthy spread]. by rewrite Hdrop.
  - intros args w id names Hcall. apply execute_calls in Hcall as (provider & ->).
    intros name [_ ?]%subAgentTools_names. done.
Qed.

(** X13. Asking for more never grants less: when every name among the
    additions is also among the larger additions, the tools granted are a
    sublist of those granted with the larger ones; and additions holding the
    same names (in any order, any number of times) grant the same tools. *)
Theorem more_names_grant_more (catalog : list Tool) (safeToolNames : list string)
    (additional additional' : list JsValue) :
  (∀ name, VStr name ∈ additional → VStr name ∈ additional') →
  sublist (subAgentTools catalog (allowedToolNames safeToolNames additional))
          (subAgentTools catalog (allowedToolNames safeToolNames additional'))
  ∧ ((∀ name, VStr name ∈ additional' → VStr name ∈ additional) →
     subAgentTools catalog (allowedToolNames safeToolNames additional)
     = subAgentTools catalog (allowedToolNames safeToolNames additional')).
Proof.
  intros Hmore. split.
  - unfold subAgentTools. induction catalog as [|t rest IH]; [done|].
    rewrite !filter_cons.
    destruct (decide (tool_name t ∈ allowedToolNames safeToolNames additional))
      as [Hin|Hout].
    + rewrite decide_True; [by apply sublist_skip|].
      apply allowedToolNames_spec. apply allowedToolNames_spec in Hin. naive_solver.
    + case_decide; [by apply sublist_cons|done].
  - intros Hless. apply subAgentTools_ext. intros name _.
    rewrite !allowedToolNames_spec. naive_solver.
Qed.

(** X14. Once [task] and [role] have passed validation the provider is
    resolved exactly once, before anything else is called: by the tier when
    the [tier] argument is truthy, by routing the task text (as given, not
    trimmed) when it is missing or empty.  Every later call is a chat or a
    tool execution, and none is made when the resolution throws. *)
Theorem provider_resolved_once (config : DelegationToolConfig) (args : JsRecord)
    (w : World) (task role : string) :
  args !! "task" = Some (VStr task) → blank task = false →
  args !! "role" = Some (VStr role) → blank role = false →
  let tier := default VUndefined (args !! "tier") in
  ∃ rest,
    (execute config args w).2.2 =
      (if js_truthy tier then CallGetForTier tier else CallRouteWithHealth task) :: rest
    ∧ Forall (fun c => is_resolution c = false) rest
    ∧ ((∃ err, (resolveProvider (orchestrator config) tier task w).1.1 = Thrown err) →
       rest = []).
Proof.
  intros Htask Hblank Hrole Hblank' tier.
  rewrite execute_valid by (rewrite ?Htask, ?Hrole; done). cbn zeta.
  rewrite Htask. cbn [from_option id text_of]. fold tier.
  unfold resolveProvider.
  destruct (js_truthy tier);
    [destruct (getForTier (orchestrator config) tier w) as [[provider|err] w1]
    |destruct (routeWithHealth (orchestrator config) task w) as [[provider|err] w1]];
    cbn [fst snd]; try (exists []; by repeat split).
  all: destruct (spread _ _) as [additional|e]; cbn [snd];
    [|exists []; by repeat split].
  all: eexists; split; [reflexivity|]; split; [|by intros [err [=]]].
  all: destruct (runSubAgent_race (sub_agent_of config args provider) w1) as [_ ->].
  all: destruct (unguarded_spec (sub_agent_of config args provider) w1) as (Hall & _).
  all: apply Forall_fmap; eapply Forall_impl; [exact Hall|].
  all: intros a (_ & _ & Hexpected); simpl; by destruct (aw_call a).
Qed.

(** X15. A [tools] argument that is truthy but neither a list nor a text
    (a number, [true], an object) makes the entry point throw a
    [TypeError]: the spread of it is outside every [try].  The provider has
    been resolved by then, and no chat is made. *)
Theorem non_iterable_tools_raise (config : DelegationToolConfig) (args : JsRecord)
    (w : World) (task role : string) (v : JsValue) (provider : Provider) :
  args !! "task" = Some (VStr task) → blank task = false →
  args !! "role" = Some (VStr role) → blank role = false →
  args !! "tools" = Some v → js_truthy v = true →
  (∀ items, v ≠ VArr items) → (∀ s, v ≠ VStr s) →
  let resolved :=
    resolveProvider (orchestrator config) (default VUndefined (args !! "tier")) task w in
  resolved.1.1 = Returned provider →
  ∃ message,
    execute config args w = (Thrown (TypeError message), (resolved.1.2, [resolved.2])).
Proof.
  intros Htask Hblank Hrole Hblank' Htools Htruthy Hlist Htext resolved Hresolved.
  rewrite execute_valid by (rewrite ?Htask, ?Hrole; done). cbn zeta.
  rewrite Htask, Htools. cbn [from_option id text_of]. fold resolved.
  destruct resolved as [[outcome w1] call]. cbn [fst snd] in *. subst outcome.
  unfold js_or. rewrite Htruthy.
  destruct v as [| |b|r|s|items|props]; try done; try (by eexists).
  - by destruct (Htext s).
  - by destruct (Hlist items).
Qed.

(** X16. The text of the entry point tells a success from a failure: for
    one role, the text formatted for a successful outcome is never that
    formatted for a failed one, whatever the responses say. *)
Theorem format_tells_success (role : string) (r1 r2 : SubAgentResult) :
  success r1 = true → success r2 = false →
  format_result role r1 ≠ format_result role r2.
Proof.
  intros H1 H2 Heq. unfold format_result in Heq. rewrite H1, H2 in Heq.
  apply append_cancel, append_cancel in Heq.
  rewrite !append_cons in Heq. discriminate.
Qed.

(** X17. An invocation from end to end.  With [task] and [role] texts that
    are not blank, a [tools] argument that can be spread, a provider resolved
    and a backend whose first answer is a text without a tool call that
    comes within 60 s, the entry point returns the header naming the role,
    one iteration and the backend, an empty line, and that text; it has made
    two calls, the resolution and one chat handing the backend the granted
    tools. *)
Theorem execute_first_turn_answer (config : DelegationToolConfig) (args : JsRecord)
    (w : World) (task role : string) (provider : Provider) (w1 : World) (call : Call)
    (resp : LLMResponse) (w' : World) :
  args !! "task" = Some (VStr task) → blank task = false →
  args !! "role" = Some (VStr role) → blank role = false →
  iterable_or_falsy (args !! "tools") = true →
  resolveProvider (orchestrator config) (default VUndefined (args !! "tier")) task w
    = (Returned provider, w1, call) →
  let sub_agent := sub_agent_of config args provider in
  provider_chat provider (rs_messages (initial_state sub_agent w1))
    (cfg_tools sub_agent) w1 = (Returned resp, w') →
  resp_type resp = TypeText →
  (extractToolCallFromText (default "" (resp_content resp)) w').1 = Returned None →
  clock w' < clock w1 + 60000 →
  execute config args w =
    (Returned ("[Sub-agent (" +:+ role +:+ ") completed in 1 iteration(s) via "
               +:+ provider_id provider +:+ "]" +:+ newline +:+ newline
               +:+ default "" (resp_content resp)),
     (w', [call; CallChat (provider_id provider) (tool_name <$> cfg_tools sub_agent)])).
Proof.
  intros Htask Hblank Hrole Hblank' Htools Hresolve sub_agent Hchat Htype Hext Hclock.
  rewrite execute_valid by (rewrite ?Htask, ?Hrole; done). cbn zeta.
  rewrite Htask, Hrole. cbn [from_option id text_of]. rewrite Hresolve.
  rewrite spread_well_typed by done. fold sub_agent.
  rewrite (first_turn_text_run sub_agent w1 resp w') by done.
  reflexivity.
Qed.

(** X20. On arguments of the declared types ([task] and [role] texts or
    missing, [tools] a list, or anything else that [[...(tools || [])]] can
    spread) the entry point returns a text in every case but two.  A missing or blank [task], then a missing or blank
    [role], gives its error text before anything is called; a failure to
    resolve the provider gives a text with its message; otherwise the text
    is the formatted outcome of the run, which for a failed run (loop
    exception, timeout, exhaustion) carries the failure after an [Error:]
    marker.  The entry point throws only when the message of a failed
    resolution cannot be read, or when the run of the sub-agent itself
    throws. *)
Theorem execute_returns_text (config : DelegationToolConfig) (args : JsRecord)
    (w : World) :
  well_typed_args args →
  let task := text_of (default VUndefined (args !! "task")) in
  let role := text_of (default VUndefined (args !! "role")) in
  let resolved :=
    resolveProvider (orchestrator config) (default VUndefined (args !! "tier")) task w in
  match (execute config args w).1 with
  | Returned text =>
      (missing_or_blank (args !! "task") = true →
         text = "Error: task must be a non-empty string."
         ∧ (execute config args w).2 = (w, []))
      ∧ (missing_or_blank (args !! "task") = false →
         missing_or_blank (args !! "role") = true →
           text = "Error: role must be a non-empty string."
           ∧ (execute config args w).2 = (w, []))
      ∧ (missing_or_blank (args !! "task") = false →
         missing_or_blank (args !! "role") = false →
         match resolved.1.1 with
         | Thrown err =>
             ∃ message, err_message err = Returned message
                        ∧ text = "Error resolving provider: " +:+ message
         | Returned provider =>
             ∃ result,
               (runSubAgent (sub_agent_of config args provider) resolved.1.2).1
                 = Returned result
               ∧ text = format_result role result
               ∧ (success result = false →
                  text = "[Sub-agent (" +:+ role +:+ ") failed after "
                         +:+ pretty (iterations result) +:+ " iteration(s)]"
                         +:+ newline +:+ newline +:+ "Error: " +:+ response result)
         end)
  | Thrown e =>
      missing_or_blank (args !! "task") = false
      ∧ missing_or_blank (args !! "role") = false
      ∧ match resolved.1.1 with
        | Thrown err => err_message err = Thrown e
        | Returned provider =>
            (runSubAgent (sub_agent_of config args provider) resolved.1.2).1 = Thrown e
        end
  end.
Proof.
  intros (Htask & Hrole & Htools) task role resolved.
  destruct (missing_or_blank (args !! "task")) eqn:Hblank.
  { rewrite execute_blank_task by done. by repeat split. }
  destruct (missing_or_blank (args !! "role")) eqn:Hblank'.
  { rewrite execute_blank_role by done. by repeat split. }
  rewrite execute_valid by done. cbn zeta. fold task role resolved.
  destruct resolved as [[[provider|err] w1] call]; cbn [fst snd].
  2:{ destruct (err_message err) as [message|e]; [|done].
      split; [done|]. split; [done|]. intros _ _. by exists message. }
  rewrite spread_well_typed by done. cbn [fst snd].
  destruct ((runSubAgent (sub_agent_of config args provider) w1).1) as [result|e];
    [|done].
  split; [done|]. split; [done|].
  intros _ _. exists result. split; [done|]. split; [done|].
  unfold format_result. by intros ->.
Qed.

End Facts.

(** * Closed examples on the simulated world *)

(** Computes the log of a run, and settles with [tac] what is asked of each
    of its entries. *)
Ltac check_log tac :=
  match goal with
  | |- Forall _ ?log =>
      let entries := eval vm_compute in log in
      replace log with entries by (vm_compute; reflexivity)
  end;
  repeat (apply List.Forall_cons; [hnf; first [exact I | tac]|]);
  apply List.Forall_nil.

Ltac tool_calls_answer := eexists; split; reflexivity.

Section Examples.

#[local] Existing Instance Sim.platform.

(** ** Extraction *)

Lemma extract_fails_closed_witness :
  extractToolCallFromText "There is nothing to call here." Sim.start
    = (Returned None, Sim.start)
  ∧ extractToolCallFromText "} closed before it opens {" Sim.start
    = (Returned None, Sim.start)
  ∧ extractToolCallFromText "Use {the usual tools} please" Sim.start
    = (Returned None, Sim.start)
  ∧ extractToolCallFromText
      ("Result: " +:+ Sim.json_object [("status", "ok")]) Sim.start
    = (Returned None, Sim.start).
Proof.
  split; [|split; [|split]]; apply (extract_fails_closed (platform := Sim.platform)).
  - apply NoOpeningBrace, indexOf_None. reflexivity.
  - apply (ClosingNotAfterOpening _ 25 0).
    + apply indexOf_Some. reflexivity.
    + apply lastIndexOf_Some. reflexivity.
    + lia.
  - apply (ParseFailure _ 4 20).
    + apply indexOf_Some. reflexivity.
    + apply lastIndexOf_Some. reflexivity.
    + vm_compute. reflexivity.
  - apply (NoAliasKey _ 8 22 {[ "status" := VStr "ok" ]}).
    + apply indexOf_Some. reflexivity.
    + apply lastIndexOf_Some. reflexivity.
    + vm_compute. reflexivity.
    + repeat split; vm_compute; reflexivity.
Defined.

(** A minimal payload comes back as the call it spells. *)
Lemma extract_recovers_call_witness :
  extractToolCallFromText
    (Sim.json_object [("action", "memory_recall"); ("query", "birthdays")]) Sim.start
  = (Returned (Some {| tc_id := "uuid-0"; tc_name := "memory_recall";
                       tc_arguments := {[ "query" := VStr "birthdays" ]} |}),
     {| Sim.sim_now := 0; Sim.sim_chats := 0; Sim.sim_uuids := 1 |}).
Proof.
  destruct (extract_recovers_call
              (Sim.json_object [("action", "memory_recall"); ("query", "birthdays")])
              Sim.start 0 45
              (<["action" := VStr "memory_recall"]> {[ "query" := VStr "birthdays" ]})
              "action" (VStr "memory_recall") "memory_recall")
    as (toolCall & Hrun & _ & _ & _ & _ & _ & Hround).
  - apply indexOf_Some. reflexivity.
  - apply lastIndexOf_Some. reflexivity.
  - lia.
  - vm_compute. reflexivity.
  - apply ByAction. vm_compute. reflexivity.
  - reflexivity.
  - discriminate.
  - rewrite Hrun.
    rewrite (Hround "memory_recall" {[ "query" := VStr "birthdays" ]} eq_refl).
    + reflexivity.
    + repeat split; vm_compute; reflexivity.
    + right. split; vm_compute; reflexivity.
Defined.

(** The aliases [tool] and [file_path] are understood. *)
Example extract_normalizes_file_path :
  extractToolCallFromText
    ("I will read it. " +:+
     Sim.json_object [("tool", "heartware_read"); ("file_path", "notes.md")]) Sim.start
  = (Returned
       (Some {| tc_id := "uuid-0"; tc_name := "heartware_read";
                tc_arguments :=
                  <["filename" := VStr "notes.md"]>
                    {[ "file_path" := VStr "notes.md" ]} |}),
     {| Sim.sim_now := 0; Sim.sim_chats := 0; Sim.sim_uuids := 1 |}).
Proof. vm_compute. reflexivity. Qed.

(** All three alias keys are left out of the arguments, also those that did
    not give the name. *)
Example extract_drops_alias_keys :
  (extractToolCallFromText
     (Sim.json_object [("action", "write"); ("name", "report"); ("content", "hello")])
     Sim.start).1
  = Returned (Some {| tc_id := "uuid-0"; tc_name := "write";
                      tc_arguments := {[ "content" := VStr "hello" ]} |}).
Proof. vm_compute. reflexivity. Qed.

(** An alias key with an empty value ends the search: no later alias is
    tried. *)
Example extract_empty_action :
  extractToolCallFromText
    (Sim.json_object [("action", ""); ("tool", "heartware_read")]) Sim.start
  = (Returned None, Sim.start).
Proof. vm_compute. reflexivity. Qed.

(** An alias key whose value is an object with a key [toString] cannot be
    printed: the extractor throws. *)
Example extract_throws_on_unprintable_name :
  (extractToolCallFromText
     ("{" +:+ Sim.quoted "action" +:+ ":" +:+ Sim.json_object [("toString", "x")] +:+ "}")
     Sim.start).1
  = Thrown (TypeError "Cannot convert object to primitive value").
Proof. vm_compute. reflexivity. Qed.

(** ** The tool executor *)

(** C5. A granted tool whose promise rejects with [undefined] makes the
    executor throw: reading the message of what was caught throws a
    [TypeError], and nothing catches it. *)
Theorem executor_throws_on_unreadable_rejection :
  (executeToolCall
     {| tc_id := "call-0"; tc_name := "memory_recall"; tc_arguments := ∅ |}
     [Sim.rejecting "memory_recall"]
     (initial_state (Sim.config_of Sim.calling_backend [Sim.rejecting "memory_recall"] None)
        Sim.start)).1
  = Thrown (TypeError "Cannot read properties of undefined (reading 'message')").
Proof. vm_compute. reflexivity. Qed.

(** A tool that throws an [Error] is answered with a text. *)
Example executor_reports_failure :
  (executeToolCall
     {| tc_id := "call-0"; tc_name := "memory_recall"; tc_arguments := ∅ |}
     [Sim.failing "memory_recall" "disk full"]
     (initial_state (Sim.config_of Sim.calling_backend [] None) Sim.start)).1
  = Returned "Error: disk full".
Proof. vm_compute. reflexivity. Qed.

(** C9. A backend that answers every chat with a native tool call, and a
    granted tool whose promise rejects with [undefined]: the loop does not
    exhaust its turns, it is ended in its first pass by the [TypeError] of
    the executor, and the run reports that error with one iteration. *)
Theorem tool_calls_end_on_unreadable_rejection :
  (run Sim.calling_backend [Sim.rejecting "memory_recall"]
     (initial_state
        (Sim.config_of Sim.calling_backend [Sim.rejecting "memory_recall"] None)
        Sim.start)).1
  = Thrown (TypeError "Cannot read properties of undefined (reading 'message')")
  ∧ (runSubAgent
       (Sim.config_of Sim.calling_backend [Sim.rejecting "memory_recall"] None)
       Sim.start).1
    = Returned
        {| success := false;
           response :=
             "Sub-agent error: Cannot read properties of undefined (reading 'message')";
           iterations := 1; providerId := "caller" |}.
Proof. split; vm_compute; reflexivity. Qed.

(** The run of a sub-agent whose backend rejects with [undefined] throws:
    the handler of the guard reads the message of what it caught. *)
Example run_throws_on_unreadable_rejection :
  (runSubAgent (Sim.config_of Sim.refusing_backend [] None) Sim.start).1
  = Thrown (TypeError "Cannot read properties of undefined (reading 'message')").
Proof. vm_compute. reflexivity. Qed.

(** ** The loop and its guard *)


(** The example of the specification: one answer [Done.] on the first turn. *)
Example summarize_doc_example :
  (runSubAgent (Sim.config_of Sim.prompt_backend [] None) Sim.start).1
  = Returned {| success := true; response := "Done."; iterations := 1;
                providerId := "sim" |}.
Proof. vm_compute. reflexivity. Qed.

Lemma tool_calls_exhaust_cap_witness :
  (runSubAgent (Sim.config_of Sim.calling_backend Sim.catalog None) Sim.start).1
  = Returned
      {| success := false;
         response := "Sub-agent reached maximum iterations without completing the task.";
         iterations := 10;
         providerId := "caller" |}.
Proof.
  destruct (tool_calls_exhaust_cap
              (Sim.config_of Sim.calling_backend Sim.catalog None) Sim.start)
    as (_ & _ & Hguarded).
  - check_log tool_calls_answer.
  - check_log fail.
  - apply Hguarded. vm_compute. reflexivity.
Defined.


End Examples.


(** C7 as worded fails on [{action: write, name: report, content: hello}]:
    [name] is a remaining key of the object, and it is not among the
    arguments. *)
Lemma alias_keys_are_not_arguments : ¬ remaining_keys_are_arguments.
Proof.
  intros Hclaim.
  destruct (Hclaim Sim.platform
              (Sim.json_object [("action", "write"); ("name", "report");
                                ("content", "hello")])
              Sim.start 0%nat 51%nat
              (<["action" := VStr "write"]>
                 (<["name" := VStr "report"]> {[ "content" := VStr "hello" ]}))
              "action" (VStr "write") "write")
    as (toolCall & w' & Hrun & _ & Hargs).
  - apply indexOf_Some. reflexivity.
  - apply lastIndexOf_Some. reflexivity.
  - lia.
  - vm_compute. reflexivity.
  - apply ByAction. vm_compute. reflexivity.
  - reflexivity.
  - discriminate.
  - specialize (Hargs "name" ltac:(discriminate) ltac:(discriminate)).
    vm_compute in Hrun. injection Hrun as <- _.
    vm_compute in Hargs. discriminate.
Qed.

Section EntryPointExamples.

#[local] Existing Instance Sim.platform.

(** A backend that answers every chat with native tool calls, 7 s each: the
    timer of 60 s fires during the ninth chat. *)
Example slow_tool_calls_example :
  (runSubAgent (Sim.config_of Sim.slow_calling_backend Sim.catalog None) Sim.start).1
  = Returned {| success := false;
                response := "Sub-agent error: Sub-agent timed out";
                iterations := 9; providerId := "slow-caller" |}.
Proof. vm_compute. reflexivity. Qed.

(** C3. The entry point raises on a [task] that is a number: [task?.trim]
    is not a function, and the call is outside every [try]. *)
Theorem execute_throws_type_error :
  execute (Sim.delegation Sim.prompt_backend)
    (<["task" := VNum "42"]> {[ "role" := VStr "Summarizer" ]}) Sim.start
  = (Thrown (TypeError "task?.trim is not a function"), (Sim.start, [])).
Proof. vm_compute. reflexivity. Qed.

(** A blank task is refused before anything is called. *)
Lemma execute_returns_text_witness :
  execute (Sim.delegation Sim.prompt_backend)
    (<["task" := VStr "   "]> {[ "role" := VStr "Summarizer" ]}) Sim.start
  = (Returned "Error: task must be a non-empty string.", (Sim.start, [])).
Proof.
  pose proof (execute_returns_text (Sim.delegation Sim.prompt_backend)
                (<["task" := VStr "   "]> {[ "role" := VStr "Summarizer" ]}) Sim.start)
    as Hrun.
  cbv zeta in Hrun.
  destruct ((execute (Sim.delegation Sim.prompt_backend)
               (<["task" := VStr "   "]> {[ "role" := VStr "Summarizer" ]}) Sim.start).1)
    as [text|e] eqn:Hout.
  - destruct Hrun as ((Htext & Hstate) & _).
    + repeat split; vm_compute; reflexivity.
    + vm_compute. reflexivity.
    + apply injective_projections; [by rewrite Hout, Htext | exact Hstate].
  - destruct Hrun as (Hblank & _).
    + repeat split; vm_compute; reflexivity.
    + vm_compute in Hblank. discriminate.
Defined.

(** The example of the specification: [delegate_task], though asked for, is
    not among the tools handed to the backend; nor is a name the catalog
    does not know. *)
Example delegate_task_requested :
  (execute (Sim.delegation Sim.prompt_backend)
     (<["task" := VStr "Summarize doc"]>
        (<["role" := VStr "Summarizer"]>
           {[ "tools" := VArr [VStr "delegate_task"; VStr "heartware_write";
                               VStr "no_such_tool"] ]}))
     Sim.start)
  = (Returned ("[Sub-agent (Summarizer) completed in 1 iteration(s) via sim]"
               +:+ newline +:+ newline +:+ "Done."),
     ({| Sim.sim_now := 6; Sim.sim_chats := 1; Sim.sim_uuids := 0 |},
      [ CallRouteWithHealth "Summarize doc";
        CallChat "sim" ["heartware_read"; "memory_recall"; "heartware_write"] ])).
Proof. vm_compute. reflexivity. Qed.

End EntryPointExamples.

(** * Further closed examples *)

Section FurtherExamples.

#[local] Existing Instance Sim.platform.

(** Prose with a stray closing brace before the payload and an unfinished
    opening brace after it. *)
Lemma extract_ignores_surroundings_witness :
  extractToolCallFromText
    ("Sure } here you go: " +:+ Sim.json_object [("action", "memory_recall")]
     +:+ " {more soon") Sim.start
  = extractToolCallFromText (Sim.json_object [("action", "memory_recall")]) Sim.start.
Proof.
  apply (extract_ignores_surroundings (platform := Sim.platform)).
  - apply indexOf_None. reflexivity.
  - apply lastIndexOf_None. reflexivity.
Defined.

(** An empty [action] hides the [tool] that follows it. *)
Lemma empty_name_is_not_found_witness :
  extractToolCallFromText
    (Sim.json_object [("action", ""); ("tool", "heartware_read")]) Sim.start
  = (Returned None, Sim.start).
Proof.
  apply (empty_name_is_not_found (platform := Sim.platform) _ _ 0 36
           (<["action" := VStr ""]> {[ "tool" := VStr "heartware_read" ]})
           "action" (VStr "")).
  - apply indexOf_Some. reflexivity.
  - apply lastIndexOf_Some. reflexivity.
  - lia.
  - vm_compute. reflexivity.
  - apply ByAction. vm_compute. reflexivity.
  - reflexivity.
Defined.

(** Two native calls in one answer, the second for a tool that was not
    granted: one execution is logged, two exchanges are appended. *)
Lemma native_calls_in_order_witness :
  ∃ st2 results new,
    loop Sim.asking_twice Sim.catalog 1 0
      (initial_state (Sim.config_of Sim.asking_twice Sim.catalog None) Sim.start)
    = loop Sim.asking_twice Sim.catalog 0 1 st2
    ∧ List.length results = 2%nat
    ∧ rs_messages st2 =
        rs_messages (initial_state (Sim.config_of Sim.asking_twice Sim.catalog None)
                       Sim.start)
        ++ native_exchanges ""
             [ {| tc_id := "call-a"; tc_name := "memory_recall"; tc_arguments := ∅ |};
               {| tc_id := "call-b"; tc_name := "web_search"; tc_arguments := ∅ |} ]
             results
    ∧ aw_call <$> new = [CallTool "memory_recall"].
Proof.
  destruct (native_calls_in_order Sim.asking_twice Sim.catalog 0 0
              (initial_state (Sim.config_of Sim.asking_twice Sim.catalog None) Sim.start)
              (Sim.tool_calls_response
                 [ {| tc_id := "call-a"; tc_name := "memory_recall"; tc_arguments := ∅ |};
                   {| tc_id := "call-b"; tc_name := "web_search"; tc_arguments := ∅ |} ])
              {| Sim.sim_now := 5; Sim.sim_chats := 1; Sim.sim_uuids := 0 |}
              eq_refl eq_refl)
    as (o & st2 & handled & results & new & Hloop & Hlen & Hmsg & _ & Hout).
  destruct o as [[]|e].
  2:{ assert (∃ r, (loop Sim.asking_twice Sim.catalog 1 0
                      (initial_state (Sim.config_of Sim.asking_twice Sim.catalog None)
                         Sim.start)).1 = Returned r) as [r Hreturned]
        by (eexists; vm_compute; reflexivity).
      rewrite Hloop in Hreturned. discriminate. }
  destruct Hout as (-> & Hcalls & _).
  exists st2, results, new.
  split; [exact Hloop|]. split; [exact Hlen|]. split; [exact Hmsg|].
  rewrite Hcalls. vm_compute. reflexivity.
Defined.

(** A call spelled in the text of the answer is executed and answered in
    the history. *)
Lemma text_tool_call_continues_witness :
  ∃ st2,
    loop Sim.spelling_backend Sim.catalog 1 0
      (initial_state (Sim.config_of Sim.spelling_backend Sim.catalog None) Sim.start)
    = loop Sim.spelling_backend Sim.catalog 0 1 st2
    ∧ rs_messages st2 =
        rs_messages (initial_state (Sim.config_of Sim.spelling_backend Sim.catalog None)
                       Sim.start)
        ++ [ assistant_text
               ("Let me check. " +:+
                Sim.json_object [("action", "memory_recall"); ("query", "birthdays")]);
             tool_result "nothing recalled" "uuid-0" ].
Proof.
  destruct (text_tool_call_continues Sim.spelling_backend Sim.catalog 0 0
              (initial_state (Sim.config_of Sim.spelling_backend Sim.catalog None)
                 Sim.start)
              (Sim.text_response
                 ("Let me check. " +:+
                  Sim.json_object [("action", "memory_recall"); ("query", "birthdays")]))
              {| Sim.sim_now := 5; Sim.sim_chats := 1; Sim.sim_uuids := 0 |}
              {| Sim.sim_now := 5; Sim.sim_chats := 1; Sim.sim_uuids := 1 |}
              {| tc_id := "uuid-0"; tc_name := "memory_recall";
                 tc_arguments := {[ "query" := VStr "birthdays" ]} |})
    as (st2 & _ & Hcase).
  - reflexivity.
  - reflexivity.
  - vm_compute. reflexivity.
  - exists st2. exact Hcase.
Defined.

(** An answer of type text without content. *)
Lemma empty_text_is_final_witness :
  (loop Sim.silent_backend [] 1 0
     (initial_state (Sim.config_of Sim.silent_backend [] None) Sim.start)).1
  = Returned {| success := true; response := ""; iterations := 1;
                providerId := "silent" |}.
Proof.
  rewrite (empty_text_is_final Sim.silent_backend [] 0 0
             (initial_state (Sim.config_of Sim.silent_backend [] None) Sim.start)
             {| resp_type := TypeText; resp_content := None; resp_toolCalls := None |}
             {| Sim.sim_now := 5; Sim.sim_chats := 1; Sim.sim_uuids := 0 |}
             eq_refl eq_refl (or_introl eq_refl)).
  reflexivity.
Defined.

(** A run that answers in 5 ms is the same under a timeout of 10 ms and
    under one of 20 ms. *)
Lemma longer_timeout_same_run_witness :
  runSubAgent (with_timeout (Sim.config_of Sim.prompt_backend [] (Some 10)) 20) Sim.start
  = runSubAgent (Sim.config_of Sim.prompt_backend [] (Some 10)) Sim.start.
Proof.
  apply (longer_timeout_same_run (Sim.config_of Sim.prompt_backend [] (Some 10))
           Sim.start 20).
  - vm_compute. reflexivity.
  - simpl. lia.
  - lia.
Defined.

(** A timeout too long for a timer is one of 1 ms: the run that answers in
    5 ms times out. *)
Example overlong_timeout_fires_at_once :
  (runSubAgent (Sim.config_of Sim.prompt_backend [] (Some 2147483648)) Sim.start).1
  = Returned {| success := false;
                response := "Sub-agent error: Sub-agent timed out";
                iterations := 1; providerId := "sim" |}.
Proof. vm_compute. reflexivity. Qed.

(** The same names, requested in another order and with a repetition. *)
Lemma more_names_grant_more_witness :
  subAgentTools Sim.catalog
    (allowedToolNames DEFAULT_SAFE_TOOLS [VStr "heartware_write"; VStr "delegate_task"])
  = subAgentTools Sim.catalog
      (allowedToolNames DEFAULT_SAFE_TOOLS
         [VStr "delegate_task"; VStr "heartware_write"; VStr "delegate_task"]).
Proof.
  apply (more_names_grant_more Sim.catalog DEFAULT_SAFE_TOOLS
           [VStr "heartware_write"; VStr "delegate_task"]
           [VStr "delegate_task"; VStr "heartware_write"; VStr "delegate_task"]).
  - intros name. rewrite !elem_of_cons. tauto.
  - intros name. rewrite !elem_of_cons. tauto.
Defined.

(** With a tier the registry is asked, and nothing is routed. *)
Lemma provider_resolved_once_witness :
  ∃ rest,
    (execute (Sim.delegation Sim.prompt_backend)
       (<["task" := VStr "Summarize doc"]>
          (<["role" := VStr "Summarizer"]> {[ "tier" := VStr "reasoning" ]}))
       Sim.start).2.2
    = CallGetForTier (VStr "reasoning") :: rest
    ∧ Forall (fun c => is_resolution c = false) rest.
Proof.
  destruct (provider_resolved_once (Sim.delegation Sim.prompt_backend)
              (<["task" := VStr "Summarize doc"]>
                 (<["role" := VStr "Summarizer"]> {[ "tier" := VStr "reasoning" ]}))
              Sim.start "Summarize doc" "Summarizer")
    as (rest & Hcalls & Hkind & _).
  - vm_compute. reflexivity.
  - reflexivity.
  - vm_compute. reflexivity.
  - reflexivity.
  - exists rest. split; [exact Hcalls|exact Hkind].
Defined.

(** [tools: 5] *)
Lemma non_iterable_tools_raise_witness :
  ∃ message,
    execute (Sim.delegation Sim.prompt_backend)
      (<["task" := VStr "Summarize doc"]>
         (<["role" := VStr "Summarizer"]> {[ "tools" := VNum "5" ]}))
      Sim.start
    = (Thrown (TypeError message),
       ({| Sim.sim_now := 1; Sim.sim_chats := 0; Sim.sim_uuids := 0 |},
        [CallRouteWithHealth "Summarize doc"])).
Proof.
  destruct (non_iterable_tools_raise (Sim.delegation Sim.prompt_backend)
              (<["task" := VStr "Summarize doc"]>
                 (<["role" := VStr "Summarizer"]> {[ "tools" := VNum "5" ]}))
              Sim.start "Summarize doc" "Summarizer" (VNum "5") Sim.prompt_backend)
    as (message & Hrun).
  - vm_compute. reflexivity.
  - reflexivity.
  - vm_compute. reflexivity.
  - reflexivity.
  - vm_compute. reflexivity.
  - reflexivity.
  - discriminate.
  - discriminate.
  - reflexivity.
  - exists message. exact Hrun.
Defined.

(** A success and a timeout of the same role. *)
Lemma format_tells_success_witness :
  format_result "Summarizer"
    {| success := true; response := "Error: none"; iterations := 1; providerId := "sim" |}
  ≠ format_result "Summarizer"
      {| success := false; response := "Sub-agent error: Sub-agent timed out";
         iterations := 1; providerId := "slow" |}.
Proof. apply format_tells_success; reflexivity. Defined.

(** The example of the specification, from the entry point. *)
Lemma execute_first_turn_answer_witness :
  execute (Sim.delegation Sim.prompt_backend)
    (<["task" := VStr "Summarize doc"]> {[ "role" := VStr "Summarizer" ]}) Sim.start
  = (Returned ("[Sub-agent (Summarizer) completed in 1 iteration(s) via sim]"
               +:+ newline +:+ newline +:+ "Done."),
     ({| Sim.sim_now := 6; Sim.sim_chats := 1; Sim.sim_uuids := 0 |},
      [ CallRouteWithHealth "Summarize doc";
        CallChat "sim" ["heartware_read"; "memory_recall"] ])).
Proof.
  rewrite (execute_first_turn_answer (Sim.delegation Sim.prompt_backend)
             (<["task" := VStr "Summarize doc"]> {[ "role" := VStr "Summarizer" ]})
             Sim.start "Summarize doc" "Summarizer" Sim.prompt_backend
             {| Sim.sim_now := 1; Sim.sim_chats := 0; Sim.sim_uuids := 0 |}
             (CallRouteWithHealth "Summarize doc")
             (Sim.text_response "Done.")
             {| Sim.sim_now := 6; Sim.sim_chats := 1; Sim.sim_uuids := 0 |}).
  - reflexivity.
  - vm_compute. reflexivity.
  - reflexivity.
  - vm_compute. reflexivity.
  - reflexivity.
  - vm_compute. reflexivity.
  - reflexivity.
  - reflexivity.
  - reflexivity.
  - vm_compute. reflexivity.
  - simpl. lia.
Defined.

(** The text of the spelling backend spells a tool call, in any world. *)
Lemma spelled_call_is_read :
  spells_tool_call
    ("Let me check. " +:+
     Sim.json_object [("action", "memory_recall"); ("query", "birthdays")]).
Proof.
  intros w. eexists _, _.
  apply (extract_found _ w 14 59
           (<["action" := VStr "memory_recall"]> {[ "query" := VStr "birthdays" ]})
           "action" (VStr "memory_recall") "memory_recall").
  - apply indexOf_Some. reflexivity.
  - apply lastIndexOf_Some. reflexivity.
  - lia.
  - vm_compute. reflexivity.
  - apply ByAction. vm_compute. reflexivity.
  - reflexivity.
  - discriminate.
Qed.

(** A backend that spells a tool call in every answer. *)
Lemma never_final_exhausts_witness :
  (runSubAgent (Sim.config_of Sim.spelling_backend Sim.catalog None) Sim.start).1
  = Returned
      {| success := false;
         response := "Sub-agent reached maximum iterations without completing the task.";
         iterations := 10;
         providerId := "speller" |}.
Proof.
  destruct (never_final_exhausts
              (Sim.config_of Sim.spelling_backend Sim.catalog None) Sim.start)
    as (_ & _ & Hguarded).
  - check_log ltac:(eexists; split; [reflexivity|]; right; split; [reflexivity|];
                    exact spelled_call_is_read).
  - check_log fail.
  - apply Hguarded. vm_compute. reflexivity.
Defined.

End FurtherExamples.
